(** * BlueBubbles server: send-confirmation correlation engine

    A shallow embedding of the outbox scanner ([QueueService.getEntries]),
    the send orchestrator ([MessageInterface]) and the configuration
    store ([ServerRepository]) of the server, with the properties of
    the specification stated and proved over it. *)

From Stdlib Require Import ZArith NArith List Bool Lia String Ascii.
From Stdlib Require Import DecimalString DecimalPos.
From stdpp Require Import base decidable option list numbers sorting gmap.

Local Open Scope Z_scope.

(** ** JavaScript strings

    A JavaScript string is a finite sequence of UTF-16 code units; the
    model keeps exactly that, a list of code-unit values, so that
    [.length], [startsWith], [substring] and friends count what the
    code counts.  SQLite's [length()] counts characters; the model
    identifies the two (texts of the Basic Multilingual Plane). *)

Module JS.

Definition jsstring : Type := list N.

(** An ASCII literal of the source. *)
Definition lit (s : string) : jsstring :=
  map N_of_ascii (list_ascii_of_string s).

Definition eqb (a b : jsstring) : bool := bool_decide (a = b).

(** [s.startsWith(p)] *)
Definition startsWith (s p : jsstring) : bool :=
  bool_decide (take (length p) s = p).

(** [s.endsWith(suf)] *)
Definition endsWith (s suf : jsstring) : bool :=
  bool_decide (length suf <= length s)%nat
  && bool_decide (drop (length s - length suf) s = suf).

(** [s.includes(sub)] *)
Fixpoint includes (s sub : jsstring) : bool :=
  startsWith s sub
  || match s with
     | [] => false
     | _ :: s' => includes s' sub
     end.

(** [s.substring(0, n)] for [0 <= n] *)
Definition substring0 (s : jsstring) (n : nat) : jsstring := take n s.

(** [s.replace(pat, rep)] with a string pattern: the first
    occurrence only. *)
Fixpoint replace (s pat rep : jsstring) : jsstring :=
  if startsWith s pat then rep ++ drop (length pat) s
  else match s with
       | [] => []
       | c :: s' => c :: replace s' pat rep
       end.

(** [s.split(sep)] for a non-empty separator.  [skip] counts the code
    units of a separator occurrence still to be passed over, [cur] is
    the current piece, reversed. *)
Fixpoint split_go (sep : jsstring) (skip : nat) (cur s : jsstring)
  : list jsstring :=
  match s with
  | [] => [rev cur]
  | c :: s' =>
      match skip with
      | S k => split_go sep k cur s'
      | O =>
          if startsWith s sep
          then rev cur :: split_go sep (length sep - 1) [] s'
          else split_go sep 0 (c :: cur) s'
      end
  end.

Definition split (s sep : jsstring) : list jsstring :=
  split_go sep 0 [] s.

(** [String(n)] for an integer-valued number. *)
Definition ofZ (z : Z) : jsstring :=
  lit (NilZero.string_of_int (Z.to_int z)).

(** Template-literal interpolation [`${x}`] of a possibly-absent
    string: [null] prints as ["null"]. *)
Definition interp (o : option jsstring) : jsstring :=
  match o with
  | Some s => s
  | None => lit "null"
  end.

(** [`${x}`] of a property lookup that may be [undefined]. *)
Definition interpUndef (o : option jsstring) : jsstring :=
  match o with
  | Some s => s
  | None => lit "undefined"
  end.

(** [x ?? d] *)
Definition nullish {A} (o : option A) (d : A) : A :=
  match o with
  | Some a => a
  | None => d
  end.

(** Truthiness of a string: non-empty. *)
Definition truthy (s : jsstring) : bool :=
  match s with [] => false | _ => true end.

Definition truthyOpt (o : option jsstring) : bool :=
  match o with Some s => truthy s | None => false end.

End JS.

Import JS.


(** ** Entities of the message store and of the outbox *)

Module Attachment.
Record t := mk {
  guid : jsstring;
  transferName : option jsstring;
  mimeType : option jsstring;
  uti : option jsstring
}.
End Attachment.

(** One run of a message's attributed body, with the two attributes the
    orchestrator reads: [__kIMMessagePartAttributeName] and
    [__kIMFileTransferGUIDAttributeName]. *)
Module Run.
Record attrs := mkAttrs {
  kIMMessagePartAttributeName : option Z;
  kIMFileTransferGUIDAttributeName : option jsstring
}.
Record t := mk { attributes : option attrs }.
End Run.

Module BodyItem.
Record t := mk { runs : option (list Run.t) }.
End BodyItem.

Module Message.
Record t := mk {
  guid : jsstring;
  text : option jsstring;
  isFromMe : bool;
  (** [message.date], on the clock of the outbox entries *)
  date : Z;
  (** guids of the chats the message is joined to *)
  chats : list jsstring;
  attachments : option (list Attachment.t);
  attributedBody : option (list BodyItem.t);
  dateEdited : option Z;
  didNotifyRecipient : bool;
  isSent : bool
}.
End Message.

(** A row of the persisted outbox ([Queue] entity); [id] is its primary
    key, by which [repo.remove] deletes. *)
Module Queue.
Record t := mk {
  id : Z;
  tempGuid : jsstring;
  chatGuid : jsstring;
  dateCreated : Z;
  text : jsstring
}.
End Queue.

#[global] Instance Attachment_eq_dec : EqDecision Attachment.t.
Proof. solve_decision. Defined.
#[global] Instance Run_attrs_eq_dec : EqDecision Run.attrs.
Proof. solve_decision. Defined.
#[global] Instance Run_eq_dec : EqDecision Run.t.
Proof. solve_decision. Defined.
#[global] Instance BodyItem_eq_dec : EqDecision BodyItem.t.
Proof. solve_decision. Defined.
#[global] Instance Message_eq_dec : EqDecision Message.t.
Proof. solve_decision. Defined.
#[global] Instance Queue_eq_dec : EqDecision Queue.t.
Proof. solve_decision. Defined.

(** ** The query interface of the message store *)

(** The [where] items [getEntries] builds, one constructor per SQL
    statement it writes. *)
Inductive DBWhereItem :=
  | WIsFromMe (fromMe : Z)
      (** ["message.is_from_me = :fromMe"] *)
  | WTextLengthIs1
      (** ["length(message.text) = 1"] *)
  | WTransferName (name : option jsstring)
      (** ["attachment.transfer_name = :name"]; [None] is an
          [undefined] argument *)
  | WTextEq (text : jsstring)
      (** ["message.text = :text"] *).

Inductive SortOrder := ASC | DESC.

Record DBMessageParams := mkParams {
  p_chatGuid : jsstring;
  p_limit : nat;
  p_withHandle : bool;
  p_after : Z;
  p_before : Z;
  p_sort : SortOrder;
  p_where : list DBWhereItem
}.

Module MessageRepository.

(** Modelled from the spec: the SQL meaning of one [where] item on a
    message row joined with its attachments (the query layer is an
    external collaborator, not in src/).  A comparison with a NULL
    column or an absent argument is not satisfied. *)
Definition satisfies (m : Message.t) (w : DBWhereItem) : bool :=
  match w with
  | WIsFromMe fromMe =>
      bool_decide ((if Message.isFromMe m then 1 else 0) = fromMe)
  | WTextLengthIs1 =>
      match Message.text m with
      | Some t => bool_decide (length t = 1%nat)
      | None => false
      end
  | WTransferName name =>
      match name with
      | Some n =>
          existsb (fun a => bool_decide (Attachment.transferName a = Some n))
                  (nullish (Message.attachments m) [])
      | None => false
      end
  | WTextEq t => bool_decide (Message.text m = Some t)
  end.

(** Modelled from the spec: the row filter of the query, chat join,
    date bounds and [where] items together. *)
Definition selected (p : DBMessageParams) (m : Message.t) : bool :=
  bool_decide (p_chatGuid p ∈ Message.chats m)
  && bool_decide (p_after p <= Message.date m)
  && bool_decide (Message.date m < p_before p)
  && forallb (satisfies m) (p_where p).

Definition dateLe (a b : Message.t) : Prop := Message.date a <= Message.date b.
Definition dateGe (a b : Message.t) : Prop := Message.date b <= Message.date a.

#[global] Instance dateLe_dec : RelDecision dateLe :=
  fun a b => decide (Message.date a <= Message.date b).
#[global] Instance dateGe_dec : RelDecision dateGe :=
  fun a b => decide (Message.date b <= Message.date a).

(** Modelled from the spec: [ORDER BY message.date] in the asked
    direction. *)
Definition ordered (o : SortOrder) (l : list Message.t) : list Message.t :=
  match o with
  | ASC => merge_sort dateLe l
  | DESC => merge_sort dateGe l
  end.

(** Modelled from the spec: [iMessageRepo.getMessages] with the object
    parameters the scanner passes (this overload is not in src/): the
    rows of the given chat dated in [[after, before)] that satisfy
    every [where] item, ordered by date, cut at [limit];
    [DatabaseRepository.getMessages] of src/ gives the chat join and
    the date bounds. *)
Definition getMessages (db : list Message.t) (p : DBMessageParams)
  : list Message.t :=
  take (p_limit p) (ordered (p_sort p) (List.filter (selected p) db)).

End MessageRepository.

(** ** Dedup cache *)

Module EventCache.

Record t := mk { items : list jsstring; capacity : nat }.

(** Modelled from the spec: [EventCache.has] (not in src/), the
    membership test. *)
Definition has (c : t) (id : jsstring) : bool := bool_decide (id ∈ items c).

(** Modelled from the spec: [EventCache.add] (not in src/) is
    idempotent and evicts the oldest identifier once the capacity is
    exceeded. *)
Definition add (id : jsstring) (c : t) : t :=
  if has c id then c
  else
    let items' := items c ++ [id] in
    mk (drop (length items' - capacity c) items') (capacity c).

End EventCache.

(** ** Outbox scanner: [QueueService] *)

Module QueueService.

Inductive Event :=
  | MessageTimeout (entry : Queue.t)
      (** [emit("message-timeout", entry)] *)
  | MessageMatch (tempGuid : jsstring) (message : Message.t)
      (** [emit("message-match", { tempGuid, message })] *).

(** What a tick reads and writes: the outbox table, the dedup cache,
    the events handed to the listeners (oldest first) and the queries
    sent to the message store (oldest first). *)
Record World := mkWorld {
  repo : list Queue.t;
  cache : EventCache.t;
  emitted : list Event;
  queries : list DBMessageParams
}.

(** [repo.remove(entry)] *)
Definition repoRemove (entry : Queue.t) (w : World) : World :=
  mkWorld (List.filter (fun e => negb (bool_decide (Queue.id e = Queue.id entry)))
                       (repo w))
          (cache w) (emitted w) (queries w).

Definition emit (ev : Event) (w : World) : World :=
  mkWorld (repo w) (cache w) (emitted w ++ [ev]) (queries w).

Definition cacheAdd (id : jsstring) (w : World) : World :=
  mkWorld (repo w) (EventCache.add id (cache w)) (emitted w) (queries w).

Definition runQuery (p : DBMessageParams) (w : World) : World :=
  mkWorld (repo w) (cache w) (emitted w) (queries w ++ [p]).

(** The [where] list built for an entry (lines 31-65). *)
Definition buildWhere (entry : Queue.t) : list DBWhereItem :=
  let where_ := [WIsFromMe 1] in
  if startsWith (Queue.text entry) (Queue.tempGuid entry) then
    where_ ++ [WTextLengthIs1;
               WTransferName (split (Queue.text entry) (lit "->") !! 1%nat)]
  else
    where_ ++ [WTextEq (Queue.text entry)].

Definition buildParams (now : Z) (entry : Queue.t) : DBMessageParams :=
  {| p_chatGuid := Queue.chatGuid entry;
     p_limit := 3;
     p_withHandle := false;
     p_after := Queue.dateCreated entry;
     p_before := now;
     p_sort := ASC;
     p_where := buildWhere entry |}.

(** The callback of [matches.forEach]. *)
Definition onMatch (entry : Queue.t) (w : World) (m : Message.t) : World :=
  repoRemove entry
    (emit (MessageMatch (Queue.tempGuid entry) m)
       (cacheAdd (Message.guid m) w)).

(** The callback of [entries.forEach], run to completion for one
    entry; [db] is the content of the message store during the tick. *)
Definition processEntry (db : list Message.t) (now : Z)
           (w : World) (entry : Queue.t) : World :=
  if bool_decide (now - Queue.dateCreated entry > 1000 * 60) then
    emit (MessageTimeout entry) (repoRemove entry w)
  else
    let params := buildParams now entry in
    let matches := MessageRepository.getMessages db params in
    fold_left (onMatch entry) matches (runQuery params w).

(** One tick.  The asynchronous callbacks are run one after the other
    in the order of [repo.find()]. *)
Definition getEntries (db : list Message.t) (now : Z) (after : Z)
           (w : World) : World :=
  let entries := repo w in
  fold_left (processEntry db now) entries w.

(** The records handed out as matches for an entry during a tick. *)
Definition entryMatches (db : list Message.t) (now : Z) (entry : Queue.t)
  : list Message.t :=
  MessageRepository.getMessages db (buildParams now entry).

Definition isMatchFor (tempGuid : jsstring) (ev : Event) : bool :=
  match ev with
  | MessageMatch g _ => bool_decide (g = tempGuid)
  | MessageTimeout _ => false
  end.

End QueueService.

(** ** Poll-until awaiter *)

Module Awaiter.
Section ResultAwaiter.
Context {T : Type}.
Variables (maxWaitMs intervalMs : Z).
(** [getData k] is what the fetch of poll number [k] returns;
    [None] is no record (or a fetch that failed). *)
Variable getData : nat -> option T.
Variable extraLoopCondition : option (option T -> bool).
Variable dataLoopCondition : option (T -> bool).

(** Modelled from the spec: whether the loop of the awaiter goes on
    after a fetch: no data yet, or one of the two caller-supplied
    conditions asks to keep looping (both default to "do not keep
    looping"). *)
Definition keepWaiting (data : option T) : bool :=
  match data with
  | None => true
  | Some d =>
      match dataLoopCondition with
      | Some c => c d
      | None => false
      end
  end
  || match extraLoopCondition with
     | Some c => c data
     | None => false
     end.

(** Modelled from the spec: the loop of the awaiter, with [n] polls
    left, the next one being poll number [k]. *)
Fixpoint poll (n k : nat) : option T :=
  match n with
  | O => None
  | S n' =>
      let data := getData k in
      if keepWaiting data then poll n' (S k) else data
  end.

(** Modelled from the spec: the polls happen at [0, i, 2i, ...]
    strictly before the deadline. *)
Definition pollCount : nat :=
  Z.to_nat ((maxWaitMs + intervalMs - 1) / intervalMs).

(** Modelled from the spec: the poll-until awaiter [resultAwaiter]
    of helpers/utils (not in src/).  Each tick fetches; a non-empty
    result on which no continuation predicate asks to keep waiting
    is returned at once; otherwise the awaiter sleeps one interval
    and retries; when the deadline elapses the result is the
    timeout failure [None], the last fetched value being
    discarded. *)
Definition resultAwaiter : option T := poll pollCount 0.

End ResultAwaiter.
End Awaiter.

(** ** Send orchestrator: [MessageInterface] *)

Module Chat.
Record t := mk { guid : jsstring }.
End Chat.

(** The transaction a privileged-channel call returns. *)
Module Transaction.
Record t := mk { identifier : option jsstring }.
End Transaction.

Inductive result (A : Type) :=
  | Ok (a : A)
  | Throw (message : jsstring)
      (** [throw new Error(message)], or a rejected promise *).
Arguments Ok {A} a.
Arguments Throw {A} message.

(** The constructor arguments of a pending expectation. *)
Record MessagePromise := mkPromise {
  mp_chatGuid : jsstring;
  mp_text : option jsstring;
  mp_isAttachment : bool;
  mp_sentAt : Z;
  mp_subject : option jsstring;
  mp_tempGuid : option jsstring
}.

Record SendMessageParams := mkSendMessage {
  sm_chatGuid : jsstring;
  sm_message : option jsstring;
  sm_method : jsstring;
  sm_attributedBody : option (list BodyItem.t);
  sm_subject : option jsstring;
  sm_effectId : option jsstring;
  sm_selectedMessageGuid : option jsstring;
  sm_tempGuid : option jsstring;
  sm_partIndex : Z
}.

Record SendMessagePrivateApiParams := mkSendMessagePrivateApi {
  smp_chatGuid : jsstring;
  smp_message : option jsstring;
  smp_attributedBody : option (list BodyItem.t);
  smp_subject : option jsstring;
  smp_effectId : option jsstring;
  smp_selectedMessageGuid : option jsstring;
  smp_partIndex : Z
}.

Record SendAttachmentParams := mkSendAttachment {
  sa_chatGuid : jsstring;
  sa_attachmentPath : jsstring;
  sa_attachmentName : option jsstring;
  sa_attachmentGuid : option jsstring;
  sa_method : jsstring;
  sa_attributedBody : option (list BodyItem.t);
  sa_subject : option jsstring;
  sa_effectId : option jsstring;
  sa_selectedMessageGuid : option jsstring;
  sa_partIndex : Z;
  sa_isAudioMessage : bool
}.

Record SendAttachmentPrivateApiParams := mkSendAttachmentPrivateApi {
  sap_chatGuid : jsstring;
  sap_filePath : jsstring;
  sap_attributedBody : option (list BodyItem.t);
  sap_subject : option jsstring;
  sap_effectId : option jsstring;
  sap_selectedMessageGuid : option jsstring;
  sap_partIndex : Z;
  sap_isAudioMessage : bool
}.

Record UnsendMessageParams := mkUnsend {
  um_chatGuid : jsstring;
  um_messageGuid : jsstring;
  um_partIndex : Z
}.

Record EditMessageParams := mkEdit {
  em_chatGuid : jsstring;
  em_messageGuid : jsstring;
  em_editedMessage : jsstring;
  em_backwardsCompatMessage : jsstring;
  em_partIndex : Z
}.

Record SendReactionParams := mkSendReaction {
  sr_chatGuid : jsstring;
  sr_message : Message.t;
  sr_reaction : jsstring;
  sr_tempGuid : option jsstring;
  sr_partIndex : Z
}.

(** The collaborators of the orchestrator that are outside the core:
    the two send channels, the message store as the polls see it, the
    file system, the platform gates and the imported constants. *)
Record Env := mkEnv {
  (** [checkPrivateApiStatus()] *)
  checkPrivateApiStatus : result unit;
  isMinMonterey : bool;
  isMinVentura : bool;
  (** [ActionHandler.sendMessage(chatGuid, message, attachment, isAudio)] *)
  ActionHandler_sendMessage :
    jsstring -> jsstring -> option jsstring -> bool -> result unit;
  (** the settlement of [awaiter.promise] *)
  awaitPromise : MessagePromise -> result (option Message.t);
  privateApi_message_send :
    SendMessagePrivateApiParams -> result (option Transaction.t);
  privateApi_attachment_send :
    SendAttachmentPrivateApiParams -> result (option Transaction.t);
  privateApi_message_unsend : UnsendMessageParams -> result unit;
  privateApi_message_edit : EditMessageParams -> result unit;
  privateApi_message_react :
    jsstring -> jsstring -> jsstring -> Z -> result (option Transaction.t);
  privateApi_message_notify : jsstring -> jsstring -> result unit;
  (** [iMessageRepo.getMessage(guid, ...)]: look number [0] is the one
      made before the dispatch, look [S k] is poll [k] after it *)
  getMessage : nat -> jsstring -> option Message.t;
  FileSystem_copyAttachment : jsstring -> option jsstring -> jsstring -> jsstring;
  FileSystem_startMessages : result unit;
  FileSystem_convertMp3ToCaf : jsstring -> jsstring -> result unit;
  (** [message.universalText(false)] *)
  universalText : Message.t -> option jsstring;
  reactionTextMap : jsstring -> option jsstring;
  negativeReactionTextMap : jsstring -> option jsstring;
  invisibleMediaChar : jsstring;
  (** polling interval of the awaiter *)
  pollIntervalMs : Z
}.

(** The mutable state of the server the orchestrator touches. *)
Record Server := mkServer {
  (** [Server().log(message, level)], oldest first *)
  logs : list (jsstring * jsstring);
  (** the expectations added to [Server().messageManager] *)
  messageManager : list MessagePromise;
  typingCache : list jsstring;
  (** calls of [privateApi.chat.stopTyping] *)
  stopTyping : list jsstring;
  (** files handed to [fs.unlink] *)
  unlinked : list jsstring;
  (** [new Date().getTime()] *)
  clock : Z
}.

(** State-and-exception monad of the orchestrator. *)
Definition M (A : Type) : Type := Server -> result A * Server.

Definition ret {A} (a : A) : M A := fun s => (Ok a, s).
Definition throw {A} (message : jsstring) : M A := fun s => (Throw message, s).
Definition bind {A B} (c : M A) (k : A -> M B) : M B :=
  fun s =>
    match c s with
    | (Ok a, s') => k a s'
    | (Throw e, s') => (Throw e, s')
    end.
(** A call of a collaborator, which returns or throws. *)
Definition perform {A} (r : result A) : M A := fun s => (r, s).
Definition tryCatch {A} (body : M A) (handler : jsstring -> M A) : M A :=
  fun s =>
    match body s with
    | (Ok a, s') => (Ok a, s')
    | (Throw e, s') => handler e s'
    end.

#[global] Instance M_ret : MRet M := @ret.
#[global] Instance M_bind : MBind M := fun A B k c => bind c k.

Definition log (message level : jsstring) : M unit :=
  fun s => (Ok tt, mkServer (logs s ++ [(message, level)]) (messageManager s)
                            (typingCache s) (stopTyping s) (unlinked s) (clock s)).

(** Modelled from the spec: [Server().messageManager.add(awaiter)]
    (the manager is not in src/) keeps the expectation until it is
    resolved. *)
Definition messageManager_add (p : MessagePromise) : M unit :=
  fun s => (Ok tt, mkServer (logs s) (messageManager s ++ [p])
                            (typingCache s) (stopTyping s) (unlinked s) (clock s)).

Definition getTypingCache : M (list jsstring) := fun s => (Ok (typingCache s), s).

Definition setTypingCache (c : list jsstring) : M unit :=
  fun s => (Ok tt, mkServer (logs s) (messageManager s) c
                            (stopTyping s) (unlinked s) (clock s)).

Definition chat_stopTyping (chatGuid : jsstring) : M unit :=
  fun s => (Ok tt, mkServer (logs s) (messageManager s) (typingCache s)
                            (stopTyping s ++ [chatGuid]) (unlinked s) (clock s)).

Definition fs_unlink (path : jsstring) : M unit :=
  fun s => (Ok tt, mkServer (logs s) (messageManager s) (typingCache s)
                            (stopTyping s) (unlinked s ++ [path]) (clock s)).

Definition getTime : M Z := fun s => (Ok (clock s), s).

Definition when (b : bool) (c : M unit) : M unit := if b then c else ret tt.

Module MessageInterface.
Section WithEnv.
Variable env : Env.

(** The double-quote character of the log templates. *)
Definition dq : jsstring := [34%N].
(** The quotation marks of [`“${text}”`]. *)
Definition ldquo : jsstring := [8220%N].
Definition rdquo : jsstring := [8221%N].

(** [const maxWaitMs = 30000] of every confirmation wait. *)
Definition maxWaitMs : Z := 30000.

(** [result?.identifier] *)
Definition identifierOf (r : option Transaction.t) : option jsstring :=
  match r with
  | Some t => Transaction.identifier t
  | None => None
  end.

(** [resultAwaiter({ maxWaitMs, getData: getMessage(guid, true, false), ... })] *)
Definition awaitMessage (guid : jsstring)
           (extraLoopCondition : option (option Message.t -> bool))
           (dataLoopCondition : option (Message.t -> bool))
  : option Message.t :=
  Awaiter.resultAwaiter maxWaitMs (pollIntervalMs env)
    (fun k => getMessage env (S k) guid)
    extraLoopCondition dataLoopCondition.

Definition afterSeconds : jsstring :=
  lit " after " ++ ofZ (maxWaitMs / 1000) ++ lit " seconds!".

Definition sendMessagePrivateApi (p : SendMessagePrivateApiParams)
  : M Message.t :=
  perform (checkPrivateApiStatus env);;
  result ← perform (privateApi_message_send env p);
  if negb (truthyOpt (identifierOf result)) then
    throw (lit "Failed to send message!")
  else
    let retMessage :=
      awaitMessage (nullish (identifierOf result) []) None None in
    match retMessage with
    | None =>
        throw (lit "Failed to send message! Message not found in database"
               ++ afterSeconds)
    | Some m => mret m
    end.

Definition sendMessageSync (p : SendMessageParams) : M (option Message.t) :=
  let chatGuid := sm_chatGuid p in
  if negb (truthy chatGuid) then throw (lit "No chat GUID provided") else
  log (lit "Sending message " ++ dq ++ interp (sm_message p) ++ dq
       ++ lit " to " ++ chatGuid) (lit "debug");;
  t ← getTime;
  let now := t - 10000 in
  let awaiter :=
    {| mp_chatGuid := chatGuid;
       mp_text := sm_message p;
       mp_isAttachment := false;
       mp_sentAt := now;
       mp_subject := sm_subject p;
       mp_tempGuid := sm_tempGuid p |} in
  log (lit "Adding await for chat: " ++ dq ++ chatGuid ++ dq
       ++ lit "; text: " ++ interp (mp_text awaiter)
       ++ lit "; tempGuid: " ++ nullish (sm_tempGuid p) (lit "N/A"))
      (lit "info");;
  messageManager_add awaiter;;
  cache ← getTypingCache;
  when (bool_decide (chatGuid ∈ cache))
    (setTypingCache
       (List.filter (fun c => negb (eqb c chatGuid)) cache);;
     chat_stopTyping chatGuid);;
  if eqb (sm_method p) (lit "apple-script") then
    perform (ActionHandler_sendMessage env chatGuid
               (nullish (sm_message p) []) None false);;
    perform (awaitPromise env awaiter)
  else if eqb (sm_method p) (lit "private-api") then
    m ← sendMessagePrivateApi
          {| smp_chatGuid := chatGuid;
             smp_message := sm_message p;
             smp_attributedBody := sm_attributedBody p;
             smp_subject := sm_subject p;
             smp_effectId := sm_effectId p;
             smp_selectedMessageGuid := sm_selectedMessageGuid p;
             smp_partIndex := sm_partIndex p |};
    mret (Some m)
  else
    throw (lit "Invalid send method: " ++ sm_method p).

Definition sendAttachmentPrivateApi (p : SendAttachmentPrivateApiParams)
  : M Message.t :=
  perform (checkPrivateApiStatus env);;
  filePath ←
    (if endsWith (sap_filePath p) (lit ".mp3") && sap_isAudioMessage p then
       tryCatch
         (let newPath :=
            substring0 (sap_filePath p) (length (sap_filePath p) - 4)
            ++ lit ".caf" in
          perform (FileSystem_convertMp3ToCaf env (sap_filePath p) newPath);;
          mret newPath)
         (fun ex =>
            log (lit "Failed to convert MP3 to CAF!") (lit "warn");;
            mret (sap_filePath p))
     else mret (sap_filePath p));
  result ← perform (privateApi_attachment_send env
                      {| sap_chatGuid := sap_chatGuid p;
                         sap_filePath := filePath;
                         sap_attributedBody := sap_attributedBody p;
                         sap_subject := sap_subject p;
                         sap_effectId := sap_effectId p;
                         sap_selectedMessageGuid := sap_selectedMessageGuid p;
                         sap_partIndex := sap_partIndex p;
                         sap_isAudioMessage := sap_isAudioMessage p |});
  if negb (truthyOpt (identifierOf result)) then
    throw (lit "Failed to send attachment!")
  else
    let retMessage :=
      awaitMessage (nullish (identifierOf result) []) None None in
    match retMessage with
    | None =>
        throw (lit "Failed to send attachment! Attachment not found in database"
               ++ afterSeconds)
    | Some m => mret m
    end.

(** Lines 152-156: the name given to the awaiter. *)
Definition correctedName (attachmentName : option jsstring) (isAudioMessage : bool)
  : option jsstring :=
  match attachmentName with
  | Some n =>
      if endsWith n (lit ".mp3") && isAudioMessage
      then Some (substring0 n (length n - 4) ++ lit ".caf")
      else Some n
  | None => None
  end.

(** Lines 191-205: the fallback wait on the expectation after the
    privileged channel returned [sentMessage]. *)
Definition confirmSent (sentMessage : option Message.t)
           (awaiter : MessagePromise) : M (option Message.t) :=
  tryCatch
    (match sentMessage with
     | Some m =>
         if negb (Message.isSent m)
         then perform (awaitPromise env awaiter)
         else mret sentMessage
     | None => mret sentMessage
     end)
    (fun e =>
       match sentMessage with
       | Some _ =>
           log (lit "Attachment sent via Private API, but message match failed")
               (lit "debug");;
           mret sentMessage
       | None => throw e
       end).

Definition sendAttachmentSync (p : SendAttachmentParams)
  : M (option Message.t) :=
  let chatGuid := sa_chatGuid p in
  if negb (truthy chatGuid) then throw (lit "No chat GUID provided") else
  let newPath :=
    FileSystem_copyAttachment env
      (sa_attachmentPath p) (sa_attachmentName p) (sa_method p) in
  log (lit "Sending attachment " ++ dq ++ interp (sa_attachmentName p) ++ dq
       ++ lit " to " ++ chatGuid) (lit "debug");;
  when (eqb (sa_method p) (lit "apple-script"))
    (perform (FileSystem_startMessages env));;
  let aName := correctedName (sa_attachmentName p) (sa_isAudioMessage p) in
  t ← getTime;
  let now := t - 10000 in
  let awaiter :=
    {| mp_chatGuid := chatGuid;
       mp_text := aName;
       mp_isAttachment := true;
       mp_sentAt := now;
       mp_subject := None;
       mp_tempGuid := sa_attachmentGuid p |} in
  log (lit "Adding await for chat: " ++ dq ++ chatGuid ++ dq
       ++ lit "; attachment: " ++ interp aName
       ++ lit "; tempGuid: " ++ nullish (sa_attachmentGuid p) (lit "N/A"))
      (lit "info");;
  messageManager_add awaiter;;
  sentMessage ←
    (if eqb (sa_method p) (lit "apple-script") then
       perform (ActionHandler_sendMessage env chatGuid []
                  (Some newPath) (sa_isAudioMessage p));;
       perform (awaitPromise env awaiter)
     else if eqb (sa_method p) (lit "private-api") then
       m ← sendAttachmentPrivateApi
             {| sap_chatGuid := chatGuid;
                sap_filePath := newPath;
                sap_attributedBody := sa_attributedBody p;
                sap_subject := sa_subject p;
                sap_effectId := sa_effectId p;
                sap_selectedMessageGuid := sa_selectedMessageGuid p;
                sap_partIndex := sa_partIndex p;
                sap_isAudioMessage := sa_isAudioMessage p |};
       confirmSent (Some m) awaiter
     else
       throw (lit "Invalid send method: " ++ sa_method p));
  when (negb (isMinMonterey env) && eqb (sa_method p) (lit "apple-script"))
    (fs_unlink newPath);;
  mret sentMessage.

(** [data?.dateEdited ?? 0] *)
Definition editDateOf (data : option Message.t) : Z :=
  match data with
  | Some m => nullish (Message.dateEdited m) 0
  | None => 0
  end.

(** [data => (data?.dateEdited ?? 0) <= currentEditDate] *)
Definition extraLoopCondition (currentEditDate : Z)
           (data : option Message.t) : bool :=
  bool_decide (editDateOf data <= currentEditDate).

Definition unsendMessage (p : UnsendMessageParams) : M Message.t :=
  perform (checkPrivateApiStatus env);;
  if negb (isMinVentura env) then
    throw (lit "Unsend message is only supported on macOS Ventura and newer!")
  else
  let msg := getMessage env 0 (um_messageGuid p) in
  let currentEditDate := editDateOf msg in
  perform (privateApi_message_unsend env p);;
  let retMessage :=
    awaitMessage (um_messageGuid p)
      (Some (extraLoopCondition currentEditDate)) None in
  match retMessage with
  | None =>
      throw (lit "Failed to unsend message! Message not edited (unsent)"
             ++ afterSeconds)
  | Some m => mret m
  end.

Definition editMessage (p : EditMessageParams) : M Message.t :=
  perform (checkPrivateApiStatus env);;
  if negb (isMinVentura env) then
    throw (lit "Unsend message is only supported on macOS Ventura and newer!")
  else
  let msg := getMessage env 0 (em_messageGuid p) in
  let currentEditDate := editDateOf msg in
  perform (privateApi_message_edit env p);;
  let retMessage :=
    awaitMessage (em_messageGuid p)
      (Some (extraLoopCondition currentEditDate)) None in
  match retMessage with
  | None =>
      throw (lit "Failed to edit message! Message not edited" ++ afterSeconds)
  | Some m => mret m
  end.

(** Lines 407-417: the transfer guid of the run of part
    [partIndex]; the scan stops at the first non-empty one. *)
Fixpoint scanRuns (partIndex : Z) (matchingGuid : option jsstring)
         (runs : list Run.t) : option jsstring :=
  match runs with
  | [] => matchingGuid
  | run :: rest =>
      let part :=
        match Run.attributes run with
        | Some a => Run.kIMMessagePartAttributeName a
        | None => None
        end in
      if bool_decide (part = Some partIndex) then
        let matchingGuid' :=
          match Run.attributes run with
          | Some a => Run.kIMFileTransferGUIDAttributeName a
          | None => None
          end in
        if truthyOpt matchingGuid' then matchingGuid'
        else scanRuns partIndex matchingGuid' rest
      else scanRuns partIndex matchingGuid rest
  end.

Fixpoint scanBody (partIndex : Z) (matchingGuid : option jsstring)
         (body : list BodyItem.t) : option jsstring :=
  match body with
  | [] => matchingGuid
  | i :: rest =>
      let matchingGuid' :=
        scanRuns partIndex matchingGuid (nullish (BodyItem.runs i) []) in
      if truthyOpt matchingGuid' then matchingGuid'
      else scanBody partIndex matchingGuid' rest
  end.

(** Lines 419-425: the attachment the reaction is taken to be on. *)
Definition reactedAttachment (message : Message.t) (partIndex : Z)
  : option Attachment.t :=
  let text := nullish (universalText env message) [] in
  let isOnlyMedia :=
    bool_decide (length text = 1%nat) && eqb text (invisibleMediaChar env) in
  let matchingGuid :=
    scanBody partIndex None (nullish (Message.attributedBody message) []) in
  let attachments := nullish (Message.attachments message) [] in
  let attachment :=
    List.find (fun a => bool_decide (Some (Attachment.guid a) = matchingGuid))
              attachments in
  match attachment with
  | Some a => Some a
  | None =>
      if isOnlyMedia && negb (bool_decide (attachments = []))
      then head attachments
      else None
  end.

(** Lines 427-439: the description of an attachment. *)
Definition mediaDescription (attachment : Attachment.t) : jsstring :=
  let mime := nullish (Attachment.mimeType attachment) [] in
  let uti := nullish (Attachment.uti attachment) [] in
  if startsWith mime (lit "image") then lit "an image"
  else if startsWith mime (lit "video") then lit "a movie"
  else if startsWith mime (lit "audio")
          || includes uti (lit "coreaudio-format")
  then lit "an audio message"
  else lit "an attachment".

(** Lines 394-446: the text the reaction is expected to be stored
    with. *)
Definition reactionMessageText (message : Message.t) (reaction : jsstring)
           (partIndex : Z) : jsstring :=
  let prefix :=
    if startsWith reaction (lit "-")
    then negativeReactionTextMap env reaction
    else reactionTextMap env reaction in
  let text := nullish (universalText env message) [] in
  let msg := ldquo ++ text ++ rdquo in
  let msg :=
    match reactedAttachment message partIndex with
    | Some attachment => mediaDescription attachment
    | None => replace msg (invisibleMediaChar env) []
    end in
  interpUndef prefix ++ lit " " ++ msg.

Definition sendReaction (p : SendReactionParams) : M Message.t :=
  perform (checkPrivateApiStatus env);;
  let messageText :=
    reactionMessageText (sr_message p) (sr_reaction p) (sr_partIndex p) in
  t ← getTime;
  let now := t - 10000 in
  let awaiter :=
    {| mp_chatGuid := sr_chatGuid p;
       mp_text := Some messageText;
       mp_isAttachment := false;
       mp_sentAt := now;
       mp_subject := None;
       mp_tempGuid := sr_tempGuid p |} in
  messageManager_add awaiter;;
  result ← perform (privateApi_message_react env (sr_chatGuid p)
                      (Message.guid (sr_message p)) (sr_reaction p)
                      (sr_partIndex p));
  if negb (truthyOpt (identifierOf result)) then
    throw (lit "Failed to send reaction! No message GUID returned.")
  else
    log (lit "Reaction sent with Message GUID: "
         ++ nullish (identifierOf result) []) (lit "debug");;
    let retMessage :=
      awaitMessage (nullish (identifierOf result) []) None None in
    retMessage ←
      match retMessage with
      | None => perform (awaitPromise env awaiter)
      | Some m => mret (Some m)
      end;
    match retMessage with
    | None =>
        throw (lit "Failed to send reaction! Message not found in database"
               ++ afterSeconds)
    | Some m => mret m
    end.

Definition notifySilencedMessage (chat : Chat.t) (message : Message.t)
  : M (option Message.t) :=
  perform (checkPrivateApiStatus env);;
  if negb (isMinMonterey env) then
    throw (lit "Notifing silenced messages is only supported on macOS Monterey and newer!")
  else if Message.didNotifyRecipient message then
    throw (lit "The recipient has already been notified of this message!")
  else
    perform (privateApi_message_notify env (Chat.guid chat)
               (Message.guid message));;
    let retMessage :=
      awaitMessage (Message.guid message) None
        (Some (fun data => negb (Message.didNotifyRecipient data))) in
    mret retMessage.

End WithEnv.
End MessageInterface.

(** ** Configuration store: [ServerRepository] *)

Module Config.
(** A row of the [Config] table. *)
Record t := mk { name : jsstring; value : jsstring }.
End Config.

Module ServerRepository.

(** The values a configuration item can take
    ([Date | string | boolean | number], and [null]).  Numbers are the
    integer-valued ones. *)
Inductive value :=
  | VBool (b : bool)
  | VNumber (n : Z)
  | VString (s : jsstring)
  | VDate (time : Z)
  | VNull.

Record t := mk {
  (** the [Config] table of the database *)
  configs : list Config.t;
  (** [this.config], the in-memory cache *)
  config : gmap jsstring value;
  (** [emitToUI(event, data)], oldest first *)
  emittedToUI : list (jsstring * gmap jsstring value)
}.

Definition isDigit (c : N) : bool := ((48 <=? c) && (c <=? 57))%N.

(** [/^-{0,1}\d+$/.test(s)] *)
Definition isIntegerText (s : jsstring) : bool :=
  let digits :=
    match s with
    | c :: rest => if (c =? 45)%N then rest else s
    | [] => s
    end in
  negb (bool_decide (digits = [])) && forallb isDigit digits.

Definition digitsValue (ds : jsstring) : Z :=
  fold_left (fun acc c => 10 * acc + (Z.of_N c - 48)) ds 0.

(** [Number(s)] for a text accepted by [isIntegerText]. *)
Definition toNumber (s : jsstring) : Z :=
  match s with
  | c :: rest => if (c =? 45)%N then - digitsValue rest else digitsValue s
  | [] => 0
  end.

(** [convertFromDbValue].  The cache is untyped, so the argument is
    any value: [===] with a string literal holds of strings only, and
    [test] applies to the printed form, which for a boolean, a date
    ([String] of a date starts with the name of a weekday) or [null]
    is no integer text. *)
Definition convertFromDbValue (input : value) : value :=
  match input with
  | VString s =>
      if eqb s (lit "1") || eqb s (lit "0")
      then VBool (negb (toNumber s =? 0))
      else if isIntegerText s then VNumber (toNumber s)
      else input
  | VNumber n =>
      if isIntegerText (ofZ n) then VNumber (toNumber (ofZ n)) else input
  | VBool _ | VDate _ | VNull => input
  end.

(** [convertToDbValue] *)
Definition convertToDbValue (input : value) : jsstring :=
  match input with
  | VBool b => if b then lit "1" else lit "0"
  | VDate time => ofZ time
  | VNumber n => ofZ n
  | VString s => s
  | VNull => lit "null"
  end.

(** [hasConfig] *)
Definition hasConfig (r : t) (name : jsstring) : bool :=
  bool_decide (is_Some (config r !! name)).

(** [getConfig] *)
Definition getConfig (r : t) (name : jsstring) : value :=
  match config r !! name with
  | None => VNull
  | Some v => convertFromDbValue v
  end.

(** [this.configs().findOne({ name })] *)
Definition findOne (rows : list Config.t) (name : jsstring) : option Config.t :=
  List.find (fun c => eqb (Config.name c) name) rows.

(** [this.configs().update(item, { value })] *)
Definition update (rows : list Config.t) (item : Config.t) (value : jsstring)
  : list Config.t :=
  map (fun c =>
         if eqb (Config.name c) (Config.name item)
            && eqb (Config.value c) (Config.value item)
         then Config.mk (Config.name c) value else c)
      rows.

(** [setConfig] *)
Definition setConfig (r : t) (name : jsstring) (v : value) : t :=
  let saniVal := convertToDbValue v in
  let item := findOne (configs r) name in
  let rows :=
    match item with
    | Some item => update (configs r) item saniVal
    | None => configs r ++ [Config.mk name saniVal]
    end in
  let config' := <[name := VString saniVal]> (config r) in
  mk rows config' (emittedToUI r ++ [(lit "config-update", config')]).

End ServerRepository.

(** ** The rules as the specification words them *)

Module Spec.

(** The name an attachment entry stores: the piece of its text after
    the first ["->"]. *)
Definition storedName (e : Queue.t) : option jsstring :=
  split (Queue.text e) (lit "->") !! 1%nat.

Definition recordsAttachment (e : Queue.t) : bool :=
  startsWith (Queue.text e) (Queue.tempGuid e).

Definition hasLengthOne (t : option jsstring) : bool :=
  match t with
  | Some s => bool_decide (length s = 1%nat)
  | None => false
  end.

Definition hasAttachmentNamed (name : option jsstring) (r : Message.t) : bool :=
  match name with
  | Some n =>
      existsb (fun a => bool_decide (Attachment.transferName a = Some n))
              (nullish (Message.attachments r) [])
  | None => false
  end.


(** The rule the scanner applies at a tick taken at time [now]: the
    two content tests are alternatives chosen by the kind of the
    entry, and the record is dated before the tick. *)
Definition sameLogicalSend (now : Z) (e : Queue.t) (r : Message.t) : bool :=
  Message.isFromMe r
  && bool_decide (Queue.chatGuid e ∈ Message.chats r)
  && bool_decide (Queue.dateCreated e <= Message.date r)
  && bool_decide (Message.date r < now)
  && (if recordsAttachment e
      then hasLengthOne (Message.text r)
           && hasAttachmentNamed (storedName e) r
      else bool_decide (Message.text r = Some (Queue.text e))).

(** An entry is expired at [now] when it is older than 60 seconds. *)
Definition expired (now : Z) (e : Queue.t) : Prop :=
  now - Queue.dateCreated e > 60000.

#[global] Instance expired_dec now e : Decision (expired now e) :=
  decide (now - Queue.dateCreated e > 60000).


End Spec.

(** ** What one tick does for one entry *)

Module Tick.
Import QueueService.

(** The events a tick emits for an entry, in order. *)
Definition entryEvents (db : list Message.t) (now : Z) (e : Queue.t)
  : list Event :=
  if decide (Spec.expired now e) then [MessageTimeout e]
  else map (MessageMatch (Queue.tempGuid e)) (entryMatches db now e).

(** The queries a tick sends for an entry. *)
Definition entryQueries (now : Z) (e : Queue.t) : list DBMessageParams :=
  if decide (Spec.expired now e) then [] else [buildParams now e].

(** Whether a tick removes the entry: it is expired or has a match. *)
Definition settled (db : list Message.t) (now : Z) (e : Queue.t) : bool :=
  bool_decide (Spec.expired now e)
  || negb (bool_decide (entryMatches db now e = [])).

(** The events and the queries added to world [w] on the way to [w']. *)
Definition newEvents (w w' : World) : list Event :=
  drop (length (emitted w)) (emitted w').
Definition newQueries (w w' : World) : list DBMessageParams :=
  drop (length (queries w)) (queries w').

Definition withoutId (id : Z) (l : list Queue.t) : list Queue.t :=
  List.filter (fun e => negb (bool_decide (Queue.id e = id))) l.

End Tick.

(** ** Sample data *)

Module Sample.
Import QueueService.

Definition chatC : jsstring := lit "iMessage;-;+15550100".
Definition chatD : jsstring := lit "iMessage;-;+15550199".

(** A self-originated text record of chat [chatC]. *)
Definition sent (guid text : string) (date : Z) : Message.t :=
  {| Message.guid := lit guid;
     Message.text := Some (lit text);
     Message.isFromMe := true;
     Message.date := date;
     Message.chats := [chatC];
     Message.attachments := None;
     Message.attributedBody := None;
     Message.dateEdited := None;
     Message.didNotifyRecipient := false;
     Message.isSent := true |}.

Definition hello1 := sent "m-1" "Hello" 2000.
Definition hello2 := sent "m-2" "Hello" 2500.

(** A text entry and an attachment entry of the outbox. *)
Definition helloEntry : Queue.t :=
  Queue.mk 1 (lit "temp-1") chatC 1000 (lit "Hello").
Definition clipEntry : Queue.t :=
  Queue.mk 2 (lit "temp-2") chatC 1000 (lit "temp-2->clip.caf").
Definition oldEntry : Queue.t :=
  Queue.mk 3 (lit "temp-3") chatC 1000 (lit "Bye").

(** A text record whose text is that of the attachment entry. *)
Definition echoRecord := sent "m-9" "temp-2->clip.caf" 2000.

Definition placeholder : jsstring := [65532%N].

Definition cafAttachment : Attachment.t :=
  Attachment.mk (lit "att-1") (Some (lit "clip.caf"))
                (Some (lit "audio/x-caf"))
                (Some (lit "com.apple.coreaudio-format")).

Definition clipRecord : Message.t :=
  {| Message.guid := lit "m-5";
     Message.text := Some placeholder;
     Message.isFromMe := true;
     Message.date := 2000;
     Message.chats := [chatC];
     Message.attachments := Some [cafAttachment];
     Message.attributedBody := None;
     Message.dateEdited := None;
     Message.didNotifyRecipient := false;
     Message.isSent := true |}.

Definition world (entries : list Queue.t) : World :=
  mkWorld entries (EventCache.mk [] 100) [] [].

Definition server0 : Server :=
  {| logs := []; messageManager := []; typingCache := [chatC; chatD];
     stopTyping := []; unlinked := []; clock := 1000000 |}.

Definition positiveTexts (reaction : jsstring) : option jsstring :=
  if eqb reaction (lit "love") then Some (lit "Loved")
  else if eqb reaction (lit "like") then Some (lit "Liked")
  else if eqb reaction (lit "laugh") then Some (lit "Laughed at")
  else None.

Definition negativeTexts (reaction : jsstring) : option jsstring :=
  if eqb reaction (lit "-love") then Some (lit "Removed a heart from")
  else if eqb reaction (lit "-like") then Some (lit "Removed a like from")
  else None.

(** Collaborators that accept every command; the store answers the
    looks as [getMessage] says and the expectation settles as
    [awaitPromise] says. *)
Definition env (getMessage : nat -> jsstring -> option Message.t)
           (awaitPromise : MessagePromise -> result (option Message.t))
  : Env :=
  {| checkPrivateApiStatus := Ok tt;
     isMinMonterey := true;
     isMinVentura := true;
     ActionHandler_sendMessage := fun _ _ _ _ => Ok tt;
     awaitPromise := awaitPromise;
     privateApi_message_send :=
       fun _ => Ok (Some (Transaction.mk (Some (lit "m-1"))));
     privateApi_attachment_send :=
       fun _ => Ok (Some (Transaction.mk (Some (lit "m-5"))));
     privateApi_message_unsend := fun _ => Ok tt;
     privateApi_message_edit := fun _ => Ok tt;
     privateApi_message_react :=
       fun _ _ _ _ => Ok (Some (Transaction.mk (Some (lit "m-7"))));
     privateApi_message_notify := fun _ _ => Ok tt;
     getMessage := getMessage;
     FileSystem_copyAttachment :=
       fun path name _ => lit "/attachments/" ++ nullish name path;
     FileSystem_startMessages := Ok tt;
     FileSystem_convertMp3ToCaf := fun _ _ => Ok tt;
     universalText := Message.text;
     reactionTextMap := positiveTexts;
     negativeReactionTextMap := negativeTexts;
     invisibleMediaChar := placeholder;
     pollIntervalMs := 250 |}.

(** A record with the given edit date. *)
Definition edited (d : option Z) : Message.t :=
  {| Message.guid := lit "m-1";
     Message.text := Some (lit "Hello");
     Message.isFromMe := true;
     Message.date := 2000;
     Message.chats := [chatC];
     Message.attachments := None;
     Message.attributedBody := None;
     Message.dateEdited := d;
     Message.didNotifyRecipient := false;
     Message.isSent := true |}.

(** The store of the edit example: the edit date is 5 before the
    dispatch and at the first two polls, and 9 from the third on. *)
Definition editStore (look : nat) (guid : jsstring) : option Message.t :=
  if (look <=? 2)%nat then Some (edited (Some 5)) else Some (edited (Some 9)).

(** A store in which nothing ever changes. *)
Definition frozenStore (m : Message.t) (look : nat) (guid : jsstring)
  : option Message.t := Some m.

(** A record the recipient was already notified of. *)
Definition notified : Message.t :=
  {| Message.guid := lit "m-1";
     Message.text := Some (lit "Hello");
     Message.isFromMe := true;
     Message.date := 2000;
     Message.chats := [chatC];
     Message.attachments := None;
     Message.attributedBody := None;
     Message.dateEdited := None;
     Message.didNotifyRecipient := true;
     Message.isSent := true |}.

(** The attachment record as the privileged channel first returns
    it, not yet marked sent. *)
Definition unsentClip : Message.t :=
  {| Message.guid := lit "m-5";
     Message.text := Some placeholder;
     Message.isFromMe := true;
     Message.date := 2000;
     Message.chats := [chatC];
     Message.attachments := Some [cafAttachment];
     Message.attributedBody := None;
     Message.dateEdited := None;
     Message.didNotifyRecipient := false;
     Message.isSent := false |}.

Definition clipParams (method : string) : SendAttachmentParams :=
  {| sa_chatGuid := chatC;
     sa_attachmentPath := lit "/tmp/clip.mp3";
     sa_attachmentName := Some (lit "clip.mp3");
     sa_attachmentGuid := Some (lit "temp-2");
     sa_method := lit method;
     sa_attributedBody := None;
     sa_subject := None;
     sa_effectId := None;
     sa_selectedMessageGuid := None;
     sa_partIndex := 0;
     sa_isAudioMessage := true |}.

Definition textParams (method : string) : SendMessageParams :=
  {| sm_chatGuid := chatC;
     sm_message := Some (lit "Hello");
     sm_method := lit method;
     sm_attributedBody := None;
     sm_subject := None;
     sm_effectId := None;
     sm_selectedMessageGuid := None;
     sm_tempGuid := Some (lit "temp-1");
     sm_partIndex := 0 |}.


Definition jpegAttachment : Attachment.t :=
  Attachment.mk (lit "att-2") (Some (lit "IMG_0001.jpeg"))
                (Some (lit "image/jpeg")) (Some (lit "public.jpeg")).

(** A record that is only a picture. *)
Definition picture : Message.t :=
  {| Message.guid := lit "m-8";
     Message.text := Some placeholder;
     Message.isFromMe := false;
     Message.date := 2000;
     Message.chats := [chatC];
     Message.attachments := Some [jpegAttachment];
     Message.attributedBody :=
       Some [BodyItem.mk
               (Some [Run.mk (Some (Run.mkAttrs (Some 0) (Some (lit "att-2"))))])];
     Message.dateEdited := None;
     Message.didNotifyRecipient := false;
     Message.isSent := true |}.

Definition reactionParams (m : Message.t) (reaction : string)
  : SendReactionParams :=
  mkSendReaction chatC m (lit reaction) (Some (lit "temp-4")) 0.

Definition rejected : MessagePromise -> result (option Message.t) :=
  fun _ => Throw (lit "Message send timeout").

Definition editParams : EditMessageParams :=
  mkEdit chatC (lit "m-1") (lit "Hullo") (lit "Edited to Hullo") 0.

End Sample.

(** ** Configuration store: loading and defaults *)

Module ConfigStartup.
Import ServerRepository.

(** [loadConfig]: every row of the table is put in the cache under its
    name, converted to its typed value; a later row of the same name
    overwrites an earlier one. *)
Definition loadConfig (r : ServerRepository.t) : ServerRepository.t :=
  ServerRepository.mk
    (configs r)
    (fold_left
       (fun c i =>
          <[Config.name i := convertFromDbValue (VString (Config.value i))]> c)
       (configs r) (config r))
    (emittedToUI r).

(** [setupDefaults]: [defaults] lists the keys of [DEFAULT_DB_ITEMS]
    (a constant that is not in src/) with the value each default
    produces; a key already in the cache is left alone. *)
Definition setupDefaults (defaults : list (jsstring * value))
           (r : ServerRepository.t) : ServerRepository.t :=
  fold_left
    (fun r kv => if hasConfig r (fst kv) then r else setConfig r (fst kv) (snd kv))
    defaults r.

(** The end of [initialize]: [loadConfig] then [setupDefaults]. *)
Definition startup (defaults : list (jsstring * value))
           (r : ServerRepository.t) : ServerRepository.t :=
  setupDefaults defaults (loadConfig r).

(** The repository as the constructor leaves it, on a given table. *)
Definition fresh (rows : list Config.t) : ServerRepository.t :=
  ServerRepository.mk rows ∅ [].

End ConfigStartup.

(** ** Send orchestrator: multipart sends and embedded media *)

Module Part.
(** A part of a multipart send, with the fields the orchestrator reads
    and writes. *)
Record t := mk {
  attachment : option jsstring;
  name : option jsstring;
  filePath : option jsstring
}.
End Part.

Record SendMultipartTextParams := mkSendMultipart {
  smt_chatGuid : jsstring;
  smt_attributedBody : option (list BodyItem.t);
  smt_subject : option jsstring;
  smt_effectId : option jsstring;
  smt_selectedMessageGuid : option jsstring;
  smt_partIndex : Z;
  smt_parts : list Part.t
}.

(** Further collaborators: the path module, the attachments directory,
    the synchronous unlink and two more commands of the privileged
    channel. *)
Record Env2 := mkEnv2 {
  (** [path.join(a, b)] *)
  path_join : jsstring -> jsstring -> jsstring;
  (** [FileSystem.messagesAttachmentsDir] *)
  messagesAttachmentsDir : jsstring;
  (** whether [fs.unlinkSync(path)] returns or throws *)
  fs_unlinkSync_outcome : jsstring -> result unit;
  privateApi_message_sendMultipart :
    SendMultipartTextParams -> result (option Transaction.t);
  (** [transaction?.data?.path] of
      [privateApi.message.getEmbeddedMedia(chatGuid, messageGuid)] *)
  privateApi_message_getEmbeddedMedia :
    jsstring -> jsstring -> result (option jsstring)
}.

Module MessageInterface2.
Import MessageInterface.
Section WithEnv.
Variable env : Env.
Variable env2 : Env2.

(** [fs.unlinkSync(path)] *)
Definition fs_unlinkSync (path : jsstring) : M unit :=
  fun s =>
    match fs_unlinkSync_outcome env2 path with
    | Ok _ =>
        (Ok tt, mkServer (logs s) (messageManager s) (typingCache s)
                         (stopTyping s) (unlinked s ++ [path]) (clock s))
    | Throw e => (Throw e, s)
    end.

(** The [TypeError] of [path.join] on an [undefined] argument. *)
Definition pathTypeError : jsstring :=
  lit "The " ++ dq ++ lit "path" ++ dq
  ++ lit " argument must be of type string. Received undefined".

Definition currentPathOf (attachment : jsstring) : jsstring :=
  path_join env2 (messagesAttachmentsDir env2) attachment.

Definition newPathOf (part : Part.t) (attachment : jsstring) : jsstring :=
  FileSystem_copyAttachment env (currentPathOf attachment) (Part.name part)
                            (lit "private-api").

(** The body of the loop of lines 540-549 for one part;
    [firstHasAttachment] is the test [parts[0].attachment]. *)
Definition copyPart (firstHasAttachment : bool) (part : Part.t) : M Part.t :=
  if firstHasAttachment then
    match Part.attachment part with
    | None => throw pathTypeError
    | Some a =>
        let currentPath := currentPathOf a in
        let newPath := newPathOf part a in
        fs_unlinkSync currentPath;;
        mret (Part.mk (Part.attachment part) (Part.name part) (Some newPath))
    end
  else mret part.

(** The loop of lines 540-549. *)
Fixpoint copyParts (firstHasAttachment : bool) (parts : list Part.t)
  : M (list Part.t) :=
  match parts with
  | [] => mret []
  | part :: rest =>
      part' ← copyPart firstHasAttachment part;
      rest' ← copyParts firstHasAttachment rest;
      mret (part' :: rest')
  end.

(** [parts[0].attachment], as a condition *)
Definition firstHasAttachment (parts : list Part.t) : bool :=
  match parts with
  | part :: _ => truthyOpt (Part.attachment part)
  | [] => false
  end.

Definition sendMultipart (p : SendMultipartTextParams) : M Message.t :=
  perform (checkPrivateApiStatus env);;
  if negb (truthy (smt_chatGuid p)) then throw (lit "No chat GUID provided") else
  if bool_decide (smt_parts p = []) then throw (lit "No parts provided") else
  parts ← copyParts (firstHasAttachment (smt_parts p)) (smt_parts p);
  result ← perform (privateApi_message_sendMultipart env2
                      {| smt_chatGuid := smt_chatGuid p;
                         smt_attributedBody := smt_attributedBody p;
                         smt_subject := smt_subject p;
                         smt_effectId := smt_effectId p;
                         smt_selectedMessageGuid := smt_selectedMessageGuid p;
                         smt_partIndex := smt_partIndex p;
                         smt_parts := parts |});
  if negb (truthyOpt (identifierOf result)) then
    throw (lit "Failed to send message!")
  else
    let retMessage :=
      awaitMessage env (nullish (identifierOf result) []) None None in
    match retMessage with
    | None =>
        throw (lit "Failed to send message! Message not found in database"
               ++ afterSeconds)
    | Some m => mret m
    end.

(** [getEmbeddedMedia]; the two flags are [message.isDigitalTouch] and
    [message.isHandwritten]. *)
Definition getEmbeddedMedia (chat : Chat.t) (message : Message.t)
           (isDigitalTouch isHandwritten : bool) : M (option jsstring) :=
  perform (checkPrivateApiStatus env);;
  if negb isDigitalTouch && negb isHandwritten then
    throw (lit "Message must be a digital touch message or handwritten message!")
  else
    path ← perform (privateApi_message_getEmbeddedMedia env2 (Chat.guid chat)
                      (Message.guid message));
    if negb (truthyOpt path) then mret None
    else
      let mediaPath := replace (nullish path []) (lit "file://") [] in
      mret (Some mediaPath).

End WithEnv.
End MessageInterface2.

(** ** Authentication middleware of the HTTP plugin *)

Module AuthMiddleware.
Section WithToken.
(** The token row [AuthApi.getToken] returns. *)
Variable Token : Type.

(** The request context: [context?.headers?.authorization],
    [context.params.Authorization], and the two fields the middleware
    writes. *)
Record UpgradedHttp := mkContext {
  headers_authorization : option jsstring;
  params_Authorization : option jsstring;
  hasEnded : bool;
  auth : option Token
}.

(** The responses written with [Response.unauthorized(res, code, msg)],
    oldest first. *)
Definition HttpResponse : Type := list (Z * jsstring).

(** [fail(msg)] *)
Definition fail (msg : jsstring) (res : HttpResponse) (context : UpgradedHttp)
  : UpgradedHttp * HttpResponse :=
  (mkContext (headers_authorization context) (params_Authorization context)
             true (auth context),
   res ++ [(401, msg)]).

(** The token the middleware reads:
    [headers.authorization ?? params.Authorization ?? ""] *)
Definition tokenOf (context : UpgradedHttp) : jsstring :=
  nullish
    (match headers_authorization context with
     | Some h => Some h
     | None => params_Authorization context
     end)
    [].

Definition missingHeader : jsstring :=
  lit "Missing " ++ [34%N] ++ lit "Authorization" ++ [34%N] ++ lit " header".

(** [middleware]; [getToken] is [AuthApi.getToken(context.plugin.db, _)],
    asked with [token.split("Bearer ")[1]]. *)
Definition middleware (getToken : option jsstring -> option Token)
           (res : HttpResponse) (context : UpgradedHttp)
  : UpgradedHttp * HttpResponse :=
  let token := tokenOf context in
  if negb (truthy token) || bool_decide (length token = 0%nat) then
    fail missingHeader res context
  else if truthy token && negb (startsWith token (lit "Bearer ")) then
    fail (lit "Invalid Authorization token! Token must be a `Bearer` token.")
         res context
  else
    let tokenValue := split token (lit "Bearer ") !! 1%nat in
    match getToken tokenValue with
    | None => fail (lit "Invalid Token") res context
    | Some dbToken =>
        (mkContext (headers_authorization context)
                   (params_Authorization context)
                   (hasEnded context) (Some dbToken),
         res)
    end.

End WithToken.
End AuthMiddleware.

(** ** Find My items *)

Module FindMy.
Section WithPayload.
(** The parts of an item that are handed on as they are. *)
Variables (Address Location Metadata Role SafeLocations CrowdSourced : Type).
(** [role.emoji] *)
Variable emoji : Role -> jsstring.

Record ProductInformation := mkInformation { modelName : option jsstring }.

Record ProductType := mkProductType {
  type : jsstring;
  productInformation : ProductInformation
}.

Record FindMyItem := mkItem {
  productType : ProductType;
  identifier : jsstring;
  batteryStatus : Z;
  address : Address;
  location : Location;
  lostModeMetadata : option Metadata;
  role : Role;
  safeLocations : SafeLocations;
  name : jsstring;
  serialNumber : jsstring;
  crowdSourcedLocation : CrowdSourced
}.

Record FindMyDevice := mkDevice {
  d_deviceModel : jsstring;
  d_id : jsstring;
  d_batteryStatus : jsstring;
  d_audioChannels : list jsstring;
  d_lostModeCapable : bool;
  d_batteryLevel : Z;
  d_locationEnabled : bool;
  d_isConsideredAccessory : bool;
  d_address : Address;
  d_location : Location;
  d_modelDisplayName : jsstring;
  d_fmlyShare : bool;
  d_thisDevice : bool;
  d_lostModeEnabled : bool;
  d_deviceDisplayName : jsstring;
  d_safeLocations : SafeLocations;
  d_name : jsstring;
  d_isMac : bool;
  d_rawDeviceModel : jsstring;
  d_prsId : jsstring;
  d_locationCapable : bool;
  d_deviceClass : jsstring;
  d_crowdSourcedLocation : CrowdSourced;
  d_role : Role;
  d_serialNumber : jsstring;
  d_lostModeMetadata : option Metadata
}.

(** [getFindMyItemModelDisplayName] *)
Definition getFindMyItemModelDisplayName (item : FindMyItem) : jsstring :=
  if eqb (type (productType item)) (lit "b389") then lit "AirTag"
  else
    let modelName := modelName (productInformation (productType item)) in
    if truthyOpt modelName then nullish modelName []
    else type (productType item).

(** [transformFindMyItemToDevice] *)
Definition transformFindMyItemToDevice (item : FindMyItem) : FindMyDevice :=
  {| d_deviceModel := type (productType item);
     d_id := identifier item;
     d_batteryStatus := lit "Unknown";
     d_audioChannels := [];
     d_lostModeCapable := true;
     d_batteryLevel := batteryStatus item;
     d_locationEnabled := true;
     d_isConsideredAccessory := true;
     d_address := address item;
     d_location := location item;
     d_modelDisplayName := getFindMyItemModelDisplayName item;
     d_fmlyShare := false;
     d_thisDevice := false;
     d_lostModeEnabled :=
       match lostModeMetadata item with Some _ => true | None => false end;
     d_deviceDisplayName := emoji (role item);
     d_safeLocations := safeLocations item;
     d_name := name item;
     d_isMac := false;
     d_rawDeviceModel := type (productType item);
     d_prsId := lit "owner";
     d_locationCapable := true;
     d_deviceClass := type (productType item);
     d_crowdSourcedLocation := crowdSourcedLocation item;
     d_role := role item;
     d_serialNumber := serialNumber item;
     d_lostModeMetadata := lostModeMetadata item |}.

End WithPayload.
End FindMy.

(** The server state with more files deleted. *)
Definition withUnlinked (s : Server) (paths : list jsstring) : Server :=
  mkServer (logs s) (messageManager s) (typingCache s) (stopTyping s)
           (unlinked s ++ paths) (clock s).

(** ** Sample data of the further properties *)

Module Sample2.
Import ServerRepository ConfigStartup.

Definition portRow : Config.t := Config.mk (lit "socket_port") (lit "1234").
Definition nameRow : Config.t := Config.mk (lit "server_name") (lit "home").

Definition repo0 : ServerRepository.t := fresh [portRow; nameRow].

Definition defaults0 : list (jsstring * value) :=
  [(lit "socket_port", VNumber 1234); (lit "tutorial_is_done", VBool false)].

Definition env2 : Env2 :=
  {| path_join := fun a b => a ++ lit "/" ++ b;
     messagesAttachmentsDir := lit "/Attachments";
     fs_unlinkSync_outcome := fun _ => Ok tt;
     privateApi_message_sendMultipart :=
       fun _ => Ok (Some (Transaction.mk (Some (lit "m-1"))));
     privateApi_message_getEmbeddedMedia :=
       fun _ _ => Ok (Some (lit "file:///tmp/touch.mov")) |}.

Definition textPart : Part.t := Part.mk None None None.
Definition filePart (n : string) : Part.t :=
  Part.mk (Some (lit n)) (Some (lit n)) None.

End Sample2.

(** * Properties *)

(** ** JavaScript strings *)

Lemma eqb_eq (a b : jsstring) : eqb a b = true <-> a = b.
Proof. unfold eqb. apply bool_decide_eq_true. Qed.

Lemma eqb_refl (a : jsstring) : eqb a a = true.
Proof. by apply eqb_eq. Qed.

Lemma eqb_neq (a b : jsstring) : a <> b -> eqb a b = false.
Proof. intros H. unfold eqb. by apply bool_decide_eq_false. Qed.

Lemma endsWith_app (stem suf : jsstring) : endsWith (stem ++ suf) suf = true.
Proof.
  unfold endsWith. rewrite length_app.
  apply andb_true_intro; split; apply bool_decide_eq_true; [lia|].
  replace (length stem + length suf - length suf)%nat with (length stem) by lia.
  by rewrite drop_app_length.
Qed.

Lemma substring0_app (stem suf : jsstring) :
  substring0 (stem ++ suf) (length (stem ++ suf) - length suf) = stem.
Proof.
  unfold substring0. rewrite length_app.
  replace (length stem + length suf - length suf)%nat with (length stem) by lia.
  by rewrite take_app_length.
Qed.





(** ** The message-store query *)

Section QueryFacts.
Import MessageRepository.

Lemma ordered_Permutation (o : SortOrder) (l : list Message.t) :
  ordered o l ≡ₚ l.
Proof. destruct o; apply merge_sort_Permutation. Qed.

Lemma getMessages_elem db p (r : Message.t) :
  r ∈ getMessages db p -> r ∈ db /\ selected p r = true.
Proof.
  unfold getMessages. intros H.
  apply elem_of_take in H as (i & H & _).
  apply list_elem_of_lookup_2 in H.
  rewrite ordered_Permutation in H.
  apply list_elem_of_In, filter_In in H as [H1 H2].
  split; [by apply list_elem_of_In | done].
Qed.

Lemma getMessages_length db p : (length (getMessages db p) <= p_limit p)%nat.
Proof. unfold getMessages. rewrite length_take. lia. Qed.


End QueryFacts.

(** ** The scanner *)

Section ScannerFacts.
Import QueueService Tick.

Lemma selected_buildParams now e r :
  MessageRepository.selected (buildParams now e) r
  = Spec.sameLogicalSend now e r.
Proof.
  unfold MessageRepository.selected, Spec.sameLogicalSend, buildParams,
    buildWhere, Spec.recordsAttachment. cbn [p_chatGuid p_after p_before p_where].
  destruct (startsWith (Queue.text e) (Queue.tempGuid e));
    cbn [app forallb MessageRepository.satisfies];
    destruct (Message.isFromMe r);
    rewrite ?bool_decide_eq_true_2, ?bool_decide_eq_false_2 by done;
    cbn [andb]; rewrite ?andb_true_r, ?andb_false_r; done.
Qed.

Lemma fold_onMatch_emitted e ms w :
  emitted (fold_left (onMatch e) ms w)
  = emitted w ++ map (MessageMatch (Queue.tempGuid e)) ms.
Proof.
  revert w. induction ms as [|m ms IH]; intros w; simpl.
  - by rewrite app_nil_r.
  - rewrite IH. simpl. by rewrite <- app_assoc.
Qed.

Lemma fold_onMatch_queries e ms w :
  queries (fold_left (onMatch e) ms w) = queries w.
Proof.
  revert w. induction ms as [|m ms IH]; intros w; simpl; [done|].
  by rewrite IH.
Qed.

Lemma withoutId_idem id l : withoutId id (withoutId id l) = withoutId id l.
Proof.
  unfold withoutId. induction l as [|x l IH]; simpl; [done|].
  case_bool_decide; simpl; [done|].
  rewrite bool_decide_eq_false_2 by done. simpl. by rewrite IH.
Qed.

Lemma fold_onMatch_repo e ms w :
  repo (fold_left (onMatch e) ms w)
  = match ms with
    | [] => repo w
    | _ => withoutId (Queue.id e) (repo w)
    end.
Proof.
  revert w. induction ms as [|m ms IH]; intros w; simpl; [done|].
  rewrite IH. destruct ms; simpl; [done|].
  apply withoutId_idem.
Qed.

Lemma processEntry_emitted db now w e :
  emitted (processEntry db now w e) = emitted w ++ entryEvents db now e.
Proof.
  unfold processEntry, entryEvents, Spec.expired.
  change (1000 * 60) with 60000.
  case_bool_decide; case_decide; try done.
  by rewrite fold_onMatch_emitted.
Qed.

Lemma processEntry_queries db now w e :
  queries (processEntry db now w e) = queries w ++ entryQueries now e.
Proof.
  unfold processEntry, entryQueries, Spec.expired.
  change (1000 * 60) with 60000.
  case_bool_decide; case_decide; try done.
  - simpl. by rewrite app_nil_r.
  - by rewrite fold_onMatch_queries.
Qed.

Lemma processEntry_repo db now w e :
  repo (processEntry db now w e)
  = if settled db now e then withoutId (Queue.id e) (repo w) else repo w.
Proof.
  unfold processEntry, settled, entryMatches.
  change (1000 * 60) with 60000.
  destruct (decide (Spec.expired now e)) as [Hx|Hx].
  - rewrite !bool_decide_eq_true_2 by done. done.
  - rewrite (bool_decide_eq_false_2 (now - _ > _)) by done.
    rewrite (bool_decide_eq_false_2 (Spec.expired _ _)) by done.
    rewrite fold_onMatch_repo. simpl.
    destruct (MessageRepository.getMessages db (buildParams now e)); done.
Qed.

Lemma tick_emitted db now es w :
  emitted (fold_left (processEntry db now) es w)
  = emitted w ++ concat (map (entryEvents db now) es).
Proof.
  revert w. induction es as [|e es IH]; intros w; simpl.
  - by rewrite app_nil_r.
  - by rewrite IH, processEntry_emitted, <- app_assoc.
Qed.

Lemma tick_queries db now es w :
  queries (fold_left (processEntry db now) es w)
  = queries w ++ concat (map (entryQueries now) es).
Proof.
  revert w. induction es as [|e es IH]; intros w; simpl.
  - by rewrite app_nil_r.
  - by rewrite IH, processEntry_queries, <- app_assoc.
Qed.

Lemma elem_of_withoutId x id l :
  x ∈ withoutId id l <-> x ∈ l /\ Queue.id x <> id.
Proof.
  unfold withoutId. rewrite !list_elem_of_In, filter_In.
  rewrite negb_true_iff, bool_decide_eq_false. done.
Qed.

Lemma tick_repo db now es w x :
  x ∈ repo (fold_left (processEntry db now) es w)
  <-> x ∈ repo w
      /\ forall e, e ∈ es -> settled db now e = true -> Queue.id x <> Queue.id e.
Proof.
  revert w. induction es as [|e es IH]; intros w; simpl.
  - split; [intros H; split; [done|] | by intros [H _]].
    intros e He. by apply elem_of_nil in He.
  - rewrite IH, processEntry_repo. split.
    + intros [H1 H2]. destruct (settled db now e) eqn:E.
      * apply elem_of_withoutId in H1 as [H1 H1']. split; [done|].
        intros e' He' Hs. apply elem_of_cons in He' as [->|He']; [done|].
        by apply H2.
      * split; [done|]. intros e' He' Hs.
        apply elem_of_cons in He' as [->|He']; [congruence|]. by apply H2.
    + intros [H1 H2]. split.
      * destruct (settled db now e) eqn:E; [|done].
        apply elem_of_withoutId. split; [done|].
        apply H2; [left|done].
      * intros e' He' Hs. apply H2; [by right|done].
Qed.

End ScannerFacts.

(** ** C1: the heuristic matching rule *)

Section MatchingRule.
Import QueueService Tick Sample.

(** The rule read as a conjunction of conditions on the record. *)
Lemma sameLogicalSend_iff now e r :
  Spec.sameLogicalSend now e r = true
  <-> Message.isFromMe r = true
      /\ Queue.chatGuid e ∈ Message.chats r
      /\ Queue.dateCreated e <= Message.date r < now
      /\ (if Spec.recordsAttachment e
          then Spec.hasLengthOne (Message.text r) = true
               /\ Spec.hasAttachmentNamed (Spec.storedName e) r = true
          else Message.text r = Some (Queue.text e)).
Proof.
  unfold Spec.sameLogicalSend.
  rewrite !andb_true_iff, !bool_decide_eq_true.
  destruct (Spec.recordsAttachment e).
  - rewrite andb_true_iff. tauto.
  - rewrite bool_decide_eq_true. tauto.
Qed.





End MatchingRule.

(** ** C2: expiry of outbox entries *)

Section Expiry.
Import QueueService Tick Sample.

Lemma newEvents_tick db now after w :
newEvents w (getEntries db now after w)
= concat (map (entryEvents db now) (repo w)).
Proof.
unfold newEvents, getEntries. rewrite tick_emitted.
by rewrite drop_app_length.
Qed.

Lemma newQueries_tick db now after w :
newQueries w (getEntries db now after w)
= concat (map (entryQueries now) (repo w)).
Proof.
unfold newQueries, getEntries. rewrite tick_queries.
by rewrite drop_app_length.
Qed.

Lemma elem_of_concat {A} (x : A) (ls : list (list A)) :
x ∈ concat ls <-> exists l, x ∈ l /\ l ∈ ls.
Proof.
rewrite list_elem_of_In, in_concat. split.
- intros (l & H1 & H2). exists l. by rewrite !list_elem_of_In.
- intros (l & H1 & H2). exists l. by rewrite <- !list_elem_of_In.
Qed.

Lemma timeout_in_entryEvents db now e e' :
MessageTimeout e ∈ entryEvents db now e' <-> e = e' /\ Spec.expired now e'.
Proof.
unfold entryEvents. case_decide.
- rewrite list_elem_of_singleton. split; [intros [= ->]; done | by intros [-> _]].
- split; [|tauto]. intros H'. apply list_elem_of_fmap in H' as (? & ? & _).
  discriminate.
Qed.

(** C2.  On a tick taken at [now], an entry of the outbox older than
  60 seconds is deleted, its timeout event is emitted, and no
  matching query is sent for it; an entry aged 60 seconds or less
  gets no timeout event on that tick. *)
Theorem outbox_expiry db now after w e :
e ∈ repo w ->
let w' := getEntries db now after w in
(now - Queue.dateCreated e > 60000 ->
 (Queue.id e ∉ map Queue.id (repo w'))
 /\ (MessageTimeout e ∈ newEvents w w')
 /\ (buildParams now e ∉ newQueries w w'))
/\ (now - Queue.dateCreated e <= 60000 ->
    MessageTimeout e ∉ newEvents w w').
Proof.
intros He w'. subst w'. rewrite newEvents_tick, newQueries_tick. split.
- intros Hx. repeat split.
  + intros Hin. apply list_elem_of_fmap in Hin as (x & Hid & Hin).
    unfold getEntries in Hin. apply tick_repo in Hin as [_ Hin].
    apply (Hin e He); [|done].
    unfold settled. by rewrite bool_decide_eq_true_2.
  + apply elem_of_concat. exists (entryEvents db now e). split.
    * by apply timeout_in_entryEvents.
    * apply list_elem_of_fmap. by exists e.
  + intros Hin. apply elem_of_concat in Hin as (qs & Hq & Hqs).
    apply list_elem_of_fmap in Hqs as (e' & -> & _).
    unfold entryQueries in Hq. case_decide as Hx'.
    * by apply elem_of_nil in Hq.
    * apply list_elem_of_singleton in Hq.
      apply (f_equal p_after) in Hq. simpl in Hq.
      unfold Spec.expired in Hx'. lia.
- intros Hy Hin. apply elem_of_concat in Hin as (evs & Hev & Hevs).
  apply list_elem_of_fmap in Hevs as (e' & -> & _).
  apply timeout_in_entryEvents in Hev as [-> Hx].
  unfold Spec.expired in Hx. lia.
Qed.

Lemma outbox_expiry_witness :
let w := world [oldEntry; helloEntry] in
let w' := getEntries [hello1] 70000 0 w in
((Queue.id oldEntry ∉ map Queue.id (repo w'))
 /\ (MessageTimeout oldEntry ∈ newEvents w w')
 /\ (buildParams 70000 oldEntry ∉ newQueries w w'))
/\ (MessageTimeout helloEntry ∉ newEvents (world [helloEntry])
      (getEntries [hello1] 61000 0 (world [helloEntry]))).
Proof.
split.
- apply (outbox_expiry [hello1] 70000 0 (world [oldEntry; helloEntry]) oldEntry).
  + left.
  + vm_compute. reflexivity.
- apply (outbox_expiry [hello1] 61000 0 (world [helloEntry]) helloEntry).
  + left.
  + vm_compute. discriminate.
Defined.

End Expiry.

(** ** C8: match events per entry *)

Section MatchesPerEntry.
Import QueueService Tick Sample.

(** C8, in the form that holds of the code.  For an entry that is not expired, one tick emits
  one matched event per record returned by the bounded candidate
  query, three at most, all carrying the entry's temp identifier; if
  at least one record is returned the entry is gone from the outbox
  after the tick, so that a later tick, which walks the outbox as it
  then is, does not process it again; if none is returned the
  callback leaves the outbox as it was. *)
Theorem matches_per_entry db now after w e :
e ∈ repo w ->
now - Queue.dateCreated e <= 60000 ->
let ms := entryMatches db now e in
emitted (processEntry db now w e)
= emitted w ++ map (MessageMatch (Queue.tempGuid e)) ms
/\ (length ms <= 3)%nat
/\ (ms <> [] ->
    Queue.id e ∉ map Queue.id (repo (getEntries db now after w)))
/\ (ms = [] -> repo (processEntry db now w e) = repo w)
/\ (ms <> [] ->
    forall db' now' after' ev,
      let w1 := getEntries db now after w in
      ev ∈ newEvents w1 (getEntries db' now' after' w1) ->
      exists e', e' ∈ repo w1 /\ Queue.id e' <> Queue.id e
                 /\ ev ∈ entryEvents db' now' e').
Proof.
intros He Hage ms. subst ms. repeat split.
- rewrite processEntry_emitted. unfold entryEvents.
  rewrite decide_False; [done|]. unfold Spec.expired. lia.
- apply (getMessages_length db (buildParams now e)).
- intros Hms Hin. apply list_elem_of_fmap in Hin as (x & Hid & Hin).
  unfold getEntries in Hin. apply tick_repo in Hin as [_ Hin].
  apply (Hin e He); [|done].
  unfold settled. rewrite (bool_decide_eq_false_2 (_ = [])) by done.
  apply orb_true_r.
- intros Hms. rewrite processEntry_repo. unfold settled.
  rewrite Hms, bool_decide_eq_false_2; [done|].
  unfold Spec.expired. lia.
- intros Hms db' now' after' ev w1 Hev.
  rewrite newEvents_tick in Hev.
  apply elem_of_concat in Hev as (evs & Hev & Hevs).
  apply list_elem_of_fmap in Hevs as (e' & -> & He').
  exists e'. repeat split; [done| |done].
  subst w1. unfold getEntries in He'. apply tick_repo in He' as [_ He'].
  apply (He' e He).
  unfold settled. rewrite (bool_decide_eq_false_2 (_ = [])) by done.
  apply orb_true_r.
Qed.

Lemma matches_per_entry_witness :
let w := world [helloEntry] in
emitted (processEntry [hello1; hello2] 5000 w helloEntry)
= [MessageMatch (lit "temp-1") hello1; MessageMatch (lit "temp-1") hello2]
/\ (Queue.id helloEntry
    ∉ map Queue.id (repo (getEntries [hello1; hello2] 5000 0 w))).
Proof.
destruct (matches_per_entry [hello1; hello2] 5000 0 (world [helloEntry])
            helloEntry) as (H1 & _ & H3 & _).
- left.
- vm_compute. discriminate.
- split.
  + rewrite H1. vm_compute. reflexivity.
  + apply H3. vm_compute. discriminate.
Defined.

(** Two records of the store satisfy the rule for one entry: the tick
  emits two matched events for it. *)
Lemma single_match_counterexample :
let w := world [helloEntry] in
let w' := getEntries [hello1; hello2] 5000 0 w in
repo w = [helloEntry]
/\ List.filter (isMatchFor (Queue.tempGuid helloEntry)) (emitted w')
   = [MessageMatch (lit "temp-1") hello1; MessageMatch (lit "temp-1") hello2]
/\ ~ (length (List.filter (isMatchFor (Queue.tempGuid helloEntry)) (emitted w'))
      <= 1)%nat.
Proof.
repeat split.
vm_compute. lia.
Qed.

End MatchesPerEntry.

(** ** The awaiter *)

Section AwaiterFacts.
Context {T : Type}.
Variable getData : nat -> option T.
Variable extra : option (option T -> bool).
Variable dataLoop : option (T -> bool).

Abbreviation keep := (Awaiter.keepWaiting extra dataLoop).
Abbreviation poll := (Awaiter.poll getData extra dataLoop).


(** If every poll before the deadline asks to go on, the loop ends in
  the timeout failure. *)
Lemma poll_timeout n k :
(forall i, (k <= i < k + n)%nat -> keep (getData i) = true) ->
poll n k = None.
Proof.
revert k. induction n as [|n IH]; intros k H; simpl; [done|].
rewrite H by lia. apply IH. intros i Hi. apply H. lia.
Qed.

(** The loop returns the first fetched value that no condition holds
  back, if its poll comes before the deadline. *)
Lemma poll_first n k j :
(j < n)%nat ->
(forall i, (i < j)%nat -> keep (getData (k + i)) = true) ->
keep (getData (k + j)) = false ->
poll n k = getData (k + j).
Proof.
revert k j. induction n as [|n IH]; intros k j Hj Hbefore Hat; [lia|].
simpl. destruct j as [|j].
- rewrite Nat.add_0_r in Hat. rewrite Hat. by rewrite Nat.add_0_r.
- specialize (Hbefore 0%nat ltac:(lia)) as H0.
  rewrite Nat.add_0_r in H0. rewrite H0.
  replace (k + S j)%nat with (S k + j)%nat in * by lia.
  apply IH; [lia| |done].
  intros i Hi. replace (S k + i)%nat with (k + S i)%nat by lia.
  apply Hbefore. lia.
Qed.

End AwaiterFacts.

(** ** C3: the baseline of edit and unsend confirmations *)

Section EditBaseline.
Import MessageInterface Sample.





End EditBaseline.

(** ** C7: the notify wait that times out *)

Section NotifyTimeout.
Import MessageInterface Sample.

(** Once the checks have passed and the command is dispatched, notify
  returns whatever the wait produced; it raises nothing of its own. *)
Lemma notify_returns_awaited env chat message s :
checkPrivateApiStatus env = Ok tt ->
isMinMonterey env = true ->
Message.didNotifyRecipient message = false ->
privateApi_message_notify env (Chat.guid chat) (Message.guid message) = Ok tt ->
notifySilencedMessage env chat message s
= (Ok (awaitMessage env (Message.guid message) None
         (Some (fun data => negb (Message.didNotifyRecipient data)))), s).
Proof.
intros H1 H2 H3 H4.
unfold notifySilencedMessage, mbind, M_bind, bind, perform.
by rewrite H1, H2, H3, H4.
Qed.

Lemma notify_precheck env chat message s :
checkPrivateApiStatus env = Ok tt ->
isMinMonterey env = true ->
Message.didNotifyRecipient message = true ->
notifySilencedMessage env chat message s
= (Throw (lit "The recipient has already been notified of this message!"), s).
Proof.
intros H1 H2 H3.
unfold notifySilencedMessage, mbind, M_bind, bind, perform.
by rewrite H1, H2, H3.
Qed.

(** C7, the code at an input where the wait times out.  The recipient-notified flag
  stays false at every poll of the 30 seconds: notify returns the
  empty result of the wait and raises no error, whereas the edit
  wait, timing out on the same store, raises the error that names
  the 30 seconds.  The pre-check does reject a record already
  notified. *)
Theorem notify_timeout_returns_without_error :
let quiet := env (frozenStore (edited None)) rejected in
notifySilencedMessage quiet (Chat.mk chatC) (edited None) server0
= (Ok None, server0)
/\ editMessage quiet editParams server0
   = (Throw (lit "Failed to edit message! Message not edited after 30 seconds!"),
      server0)
/\ notifySilencedMessage quiet (Chat.mk chatC) notified server0
   = (Throw (lit "The recipient has already been notified of this message!"),
      server0).
Proof. vm_compute. repeat split. Qed.

End NotifyTimeout.

(** ** C6: partial success of an attachment send *)

Section PartialSuccess.
Import MessageInterface Sample.



(** The whole send on the privileged channel: the record comes back
  unsent, the expectation is rejected, and the send still returns
  the record, having logged the failed match. *)
Example sendAttachmentSync_swallows_fallback :
let e := env (frozenStore unsentClip) rejected in
fst (sendAttachmentSync e (clipParams "private-api") server0)
= Ok (Some unsentClip)
/\ last (logs (snd (sendAttachmentSync e (clipParams "private-api") server0)))
   = Some (lit "Attachment sent via Private API, but message match failed",
           lit "debug").
Proof. vm_compute. split; reflexivity. Qed.

End PartialSuccess.

(** ** C9: an invalid send method is found after the registration *)

Section InvalidMethod.
Import MessageInterface Sample.

Lemma filter_absent (x : jsstring) (l : list jsstring) :
x ∉ l -> List.filter (fun c => negb (eqb c x)) l = l.
Proof.
induction l as [|y l IH]; simpl; [done|].
intros H. apply not_elem_of_cons in H as [Hxy Hx].
rewrite eqb_neq by congruence. simpl. by rewrite IH.
Qed.

(** C9.  A text send with a chat guid and a method that is neither
  "apple-script" nor "private-api" throws "Invalid send method", and
  by then the expectation has been added to the message manager and
  the chat has been taken out of the typing cache (with a
  stop-typing call if it was there): the state is not the one the
  call started from. *)
Theorem invalid_method_leaves_expectation env p s :
truthy (sm_chatGuid p) = true ->
sm_method p <> lit "apple-script" ->
sm_method p <> lit "private-api" ->
exists s',
  sendMessageSync env p s
  = (Throw (lit "Invalid send method: " ++ sm_method p), s')
  /\ messageManager s'
     = messageManager s
       ++ [{| mp_chatGuid := sm_chatGuid p;
              mp_text := sm_message p;
              mp_isAttachment := false;
              mp_sentAt := clock s - 10000;
              mp_subject := sm_subject p;
              mp_tempGuid := sm_tempGuid p |}]
  /\ typingCache s'
     = List.filter (fun c => negb (eqb c (sm_chatGuid p))) (typingCache s)
  /\ stopTyping s'
     = stopTyping s
       ++ (if bool_decide (sm_chatGuid p ∈ typingCache s)
           then [sm_chatGuid p] else [])
  /\ s' <> s.
Proof.
intros Hchat Hm1 Hm2.
unfold sendMessageSync. rewrite Hchat. cbn [negb].
unfold mbind, M_bind, bind, log, getTime, messageManager_add,
  getTypingCache, when, setTypingCache, chat_stopTyping, throw, mret, M_ret, ret.
cbn [logs messageManager typingCache stopTyping unlinked clock].
rewrite (eqb_neq _ _ Hm1), (eqb_neq _ _ Hm2).
case_bool_decide as Hin; cbn [logs messageManager typingCache stopTyping unlinked clock];
  eexists; (split; [reflexivity|]);
  cbn [logs messageManager typingCache stopTyping unlinked clock];
  repeat split; try done.
- intros Heq. apply (f_equal messageManager) in Heq. simpl in Heq.
  apply (f_equal length) in Heq. rewrite length_app in Heq. simpl in Heq. lia.
- by rewrite filter_absent.
- by rewrite app_nil_r.
- intros Heq. apply (f_equal messageManager) in Heq. simpl in Heq.
  apply (f_equal length) in Heq. rewrite length_app in Heq. simpl in Heq. lia.
Qed.

Lemma invalid_method_leaves_expectation_witness :
exists s',
  sendMessageSync (env editStore rejected) (textParams "sms") server0
  = (Throw (lit "Invalid send method: sms"), s')
  /\ messageManager s'
     = [mkPromise chatC (Some (lit "Hello")) false 990000 None
                  (Some (lit "temp-1"))]
  /\ typingCache s' = [chatD]
  /\ stopTyping s' = [chatC]
  /\ s' <> server0.
Proof.
destruct (invalid_method_leaves_expectation (env editStore rejected)
            (textParams "sms") server0) as (s' & H1 & H2 & H3 & H4 & H5).
- reflexivity.
- vm_compute. discriminate.
- vm_compute. discriminate.
- exists s'. repeat split; [exact H1 | exact H2 | exact H3 | exact H4 | exact H5].
Defined.

End InvalidMethod.

(** ** C5: the name an audio attachment is awaited under *)

Section NameRewrite.
Import MessageInterface QueueService Sample.

Lemma correctedName_mp3 (stem : jsstring) :
correctedName (Some (stem ++ lit ".mp3")) true = Some (stem ++ lit ".caf").
Proof.
unfold correctedName. rewrite endsWith_app. cbn [andb].
change 4%nat with (length (lit ".mp3")). by rewrite substring0_app.
Qed.

(** The expectation an attachment send registers carries the corrected
  name, whatever happens to the send afterwards. *)
Lemma sendAttachmentSync_registers env p s :
truthy (sa_chatGuid p) = true ->
(sa_method p = lit "apple-script" -> FileSystem_startMessages env = Ok tt) ->
messageManager (snd (sendAttachmentSync env p s))
= messageManager s
  ++ [{| mp_chatGuid := sa_chatGuid p;
         mp_text := correctedName (sa_attachmentName p) (sa_isAudioMessage p);
         mp_isAttachment := true;
         mp_sentAt := clock s - 10000;
         mp_subject := None;
         mp_tempGuid := sa_attachmentGuid p |}].
Proof.
intros Hchat Hstart.
unfold sendAttachmentSync. rewrite Hchat. cbn [negb].
unfold sendAttachmentPrivateApi, confirmSent, tryCatch.
unfold mbind, M_bind, bind, log, getTime, messageManager_add, perform,
  when, fs_unlink, throw, mret, M_ret, ret.
cbn [logs messageManager typingCache stopTyping unlinked clock].
destruct (eqb (sa_method p) (lit "apple-script")) eqn:Em.
- rewrite Hstart by (by apply eqb_eq).
  cbn [logs messageManager typingCache stopTyping unlinked clock].
  repeat (case_match; simplify_eq/=; try done).
- repeat (case_match; simplify_eq/=; try done).
Qed.

(** C5.  For an audio send of a name ending in ".mp3" the name the
  expectation is registered under is that name with ".caf" in place
  of the suffix; for a send that is not audio, or a name that does
  not end in ".mp3", it is the name unchanged; and an outbox entry
  stored under the name so recorded for "clip.mp3" matches the record
  whose attachment declares the transfer name "clip.caf", which an
  entry stored under "clip.mp3" itself would not. *)
Theorem attachment_name_rewrite :
(forall stem,
   correctedName (Some (stem ++ lit ".mp3")) true
   = Some (stem ++ lit ".caf"))
/\ (forall name, correctedName name false = name)
/\ (forall name isAudio,
      endsWith name (lit ".mp3") = false ->
      correctedName (Some name) isAudio = Some name)
/\ (forall isAudio, correctedName None isAudio = None)
/\ (forall env p s,
      truthy (sa_chatGuid p) = true ->
      (sa_method p = lit "apple-script" ->
       FileSystem_startMessages env = Ok tt) ->
      mp_text <$> last (messageManager (snd (sendAttachmentSync env p s)))
      = Some (correctedName (sa_attachmentName p) (sa_isAudioMessage p)))
/\ (let recorded := nullish (correctedName (Some (lit "clip.mp3")) true) [] in
    entryMatches [echoRecord; clipRecord] 5000
      (Queue.mk 2 (lit "temp-2") chatC 1000 (lit "temp-2->" ++ recorded))
    = [clipRecord]
    /\ entryMatches [echoRecord; clipRecord] 5000
         (Queue.mk 2 (lit "temp-2") chatC 1000 (lit "temp-2->clip.mp3"))
       = []).
Proof.
split; [apply correctedName_mp3|]. repeat split.
- intros [n|]; [|done]. unfold correctedName. by rewrite andb_false_r.
- intros name isAudio H. unfold correctedName. by rewrite H.
- intros env p s H1 H2.
  rewrite (sendAttachmentSync_registers env p s H1 H2).
  by rewrite last_snoc.
Qed.

Lemma attachment_name_rewrite_witness :
correctedName (Some (lit "clip.wav")) true = Some (lit "clip.wav")
/\ mp_text <$> last (messageManager
                       (snd (sendAttachmentSync (env editStore rejected)
                               (clipParams "apple-script") server0)))
   = Some (Some (lit "clip.caf")).
Proof.
destruct attachment_name_rewrite as (_ & _ & Hother & _ & Hreg & _).
split.
- apply Hother. reflexivity.
- apply (Hreg (env editStore rejected) (clipParams "apple-script") server0);
    reflexivity.
Defined.

End NameRewrite.

(** ** C4: the text a reaction is expected under *)

Section ReactionText.
Import MessageInterface Sample.






End ReactionText.

(** ** C10: configuration values through the store *)

Section ConfigRoundTrip.
Import ServerRepository.


End ConfigRoundTrip.

(** * Further properties of the code *)

(** ** Printing and parsing integers *)

Section DecimalText.
Import ServerRepository.

Abbreviation step := (fun (acc : Z) (c : N) => 10 * acc + (Z.of_N c - 48)).

Lemma digits_acc (d : Decimal.uint) (p : positive) :
  fold_left step (lit (NilEmpty.string_of_uint d)) (Zpos p)
  = Zpos (Pos.of_uint_acc d p).
Proof.
  revert p. induction d; intros p; simpl; try done;
    rewrite <- IHd; f_equal; lia.
Qed.

Lemma digits_value (d : Decimal.uint) :
  digitsValue (lit (NilEmpty.string_of_uint d)) = Z.of_N (Pos.of_uint d).
Proof.
  unfold digitsValue. induction d; simpl; try done;
    try (rewrite <- digits_acc; f_equal; lia).
Qed.

Lemma digits_are_digits (d : Decimal.uint) :
  forallb isDigit (lit (NilEmpty.string_of_uint d)) = true.
Proof. induction d; simpl; try done. Qed.

Lemma digits_head (d : Decimal.uint) :
  d <> Decimal.Nil ->
  exists c rest, lit (NilEmpty.string_of_uint d) = c :: rest /\ (c =? 45)%N = false.
Proof. destruct d; [done|..]; intros _; simpl; eauto. Qed.

Lemma toNumber_digits (d : Decimal.uint) :
  d <> Decimal.Nil ->
  toNumber (lit (NilEmpty.string_of_uint d)) = Z.of_N (Pos.of_uint d).
Proof.
  intros Hd. destruct (digits_head d Hd) as (c & rest & E & Hc).
  unfold toNumber. rewrite E, Hc, <- E. apply digits_value.
Qed.

Lemma isIntegerText_digits (d : Decimal.uint) :
  d <> Decimal.Nil ->
  isIntegerText (lit (NilEmpty.string_of_uint d)) = true.
Proof.
  intros Hd. destruct (digits_head d Hd) as (c & rest & E & Hc).
  unfold isIntegerText. rewrite E, Hc, <- E, digits_are_digits.
  rewrite E. done.
Qed.

Lemma string_of_uint_nonnil (d : Decimal.uint) :
  d <> Decimal.Nil ->
  NilZero.string_of_uint d = NilEmpty.string_of_uint d.
Proof. by destruct d. Qed.

Lemma ofZ_pos (p : positive) :
  ofZ (Zpos p) = lit (NilEmpty.string_of_uint (Pos.to_uint p)).
Proof.
  unfold ofZ, Z.to_int, NilZero.string_of_int.
  by rewrite string_of_uint_nonnil by apply DecimalPos.Unsigned.to_uint_nonnil.
Qed.

Lemma ofZ_neg (p : positive) :
  ofZ (Zneg p) = 45%N :: lit (NilEmpty.string_of_uint (Pos.to_uint p)).
Proof.
  unfold ofZ, Z.to_int, NilZero.string_of_int.
  by rewrite string_of_uint_nonnil by apply DecimalPos.Unsigned.to_uint_nonnil.
Qed.

(** [Number(String(z)) = z]. *)
Lemma toNumber_ofZ (z : Z) : toNumber (ofZ z) = z.
Proof.
  destruct z as [|p|p]; [done|..].
  - rewrite ofZ_pos, toNumber_digits
      by apply DecimalPos.Unsigned.to_uint_nonnil.
    by rewrite DecimalPos.Unsigned.of_to.
  - rewrite ofZ_neg. cbn [toNumber N.eqb Pos.eqb].
    by rewrite digits_value, DecimalPos.Unsigned.of_to.
Qed.

(** The printed form of an integer passes [/^-{0,1}\d+$/]. *)
Lemma isIntegerText_ofZ (z : Z) : isIntegerText (ofZ z) = true.
Proof.
  destruct z as [|p|p]; [done|..].
  - rewrite ofZ_pos. apply isIntegerText_digits,
      DecimalPos.Unsigned.to_uint_nonnil.
  - rewrite ofZ_neg. unfold isIntegerText. cbn [N.eqb Pos.eqb].
    rewrite digits_are_digits.
    destruct (digits_head _ (DecimalPos.Unsigned.to_uint_nonnil p))
      as (c & rest & -> & _).
    done.
Qed.


End DecimalText.

(** ** The configuration store *)

Section ConfigFacts.
Import ServerRepository ConfigStartup Sample2.

Lemma getConfig_setConfig r name v :
  getConfig (setConfig r name v) name
  = convertFromDbValue (VString (convertToDbValue v)).
Proof.
  unfold getConfig, setConfig. cbn [config]. by rewrite lookup_insert_eq.
Qed.











Lemma findOne_name rows name item :
  findOne rows name = Some item -> Config.name item = name /\ item ∈ rows.
Proof.
  unfold findOne. intros H. apply find_some in H as [Hin H].
  apply eqb_eq in H. split; [done | by apply list_elem_of_In].
Qed.

Lemma findOne_None rows name :
  findOne rows name = None -> name ∉ map Config.name rows.
Proof.
  unfold findOne. intros H Hin.
  apply list_elem_of_fmap in Hin as (c & -> & Hc).
  apply list_elem_of_In in Hc.
  pose proof (find_none _ _ H c Hc) as Hf. simpl in Hf.
  by rewrite eqb_refl in Hf.
Qed.

Lemma update_names rows item value :
  map Config.name (update rows item value) = map Config.name rows.
Proof.
  unfold update. induction rows as [|c rows IH]; simpl; [done|].
  rewrite IH. by destruct (_ && _).
Qed.

Lemma findOne_update rows name item value :
  findOne rows name = Some item ->
  findOne (update rows item value) name = Some (Config.mk name value).
Proof.
  unfold findOne, update. induction rows as [|c rows IH]; simpl; [done|].
  destruct (eqb (Config.name c) name) eqn:E.
  - intros [= <-]. rewrite !eqb_refl. simpl. rewrite E.
    apply eqb_eq in E. by rewrite E.
  - intros H. pose proof (find_some _ _ H) as [_ Hn]. apply eqb_eq in Hn.
    assert (E' : eqb (Config.name c) (Config.name item) = false)
      by (by rewrite Hn).
    rewrite E'. simpl. rewrite E. by apply IH.
Qed.

Lemma findOne_create rows name value :
  findOne rows name = None ->
  findOne (rows ++ [Config.mk name value]) name = Some (Config.mk name value).
Proof.
  unfold findOne. induction rows as [|c rows IH]; simpl.
  - by rewrite eqb_refl.
  - destruct (eqb (Config.name c) name); [done | apply IH].
Qed.

Lemma update_other rows item value name' :
  Config.name item <> name' ->
  List.filter (fun c => eqb (Config.name c) name') (update rows item value)
  = List.filter (fun c => eqb (Config.name c) name') rows.
Proof.
  intros Hne. unfold update. induction rows as [|c rows IH]; simpl; [done|].
  destruct (eqb (Config.name c) (Config.name item)) eqn:E; simpl.
  - apply eqb_eq in E.
    destruct (eqb (Config.value c) (Config.value item)); simpl;
      rewrite (eqb_neq (Config.name c) name') by congruence; apply IH.
  - rewrite IH. done.
Qed.

Lemma setConfig_table_facts r name v name' :
  let r' := setConfig r name v in
  findOne (configs r') name = Some (Config.mk name (convertToDbValue v))
  /\ config r' !! name = Some (VString (convertToDbValue v))
  /\ map Config.name (configs r')
     = map Config.name (configs r)
       ++ (if bool_decide (name ∈ map Config.name (configs r)) then [] else [name])
  /\ (name <> name' ->
      List.filter (fun c => eqb (Config.name c) name') (configs r')
      = List.filter (fun c => eqb (Config.name c) name') (configs r)).
Proof.
  intros r'. subst r'. unfold setConfig. cbn [configs config].
  destruct (findOne (configs r) name) as [item|] eqn:E.
  - destruct (findOne_name _ _ _ E) as [Hn Hin]. repeat split.
    + by apply findOne_update.
    + by rewrite lookup_insert_eq.
    + rewrite update_names, bool_decide_eq_true_2, app_nil_r; [done|].
      rewrite <- Hn. apply list_elem_of_fmap. by exists item.
    + intros Hne. apply update_other. congruence.
  - repeat split.
    + by apply findOne_create.
    + by rewrite lookup_insert_eq.
    + rewrite map_app. simpl.
      by rewrite bool_decide_eq_false_2 by by apply findOne_None.
    + intros Hne. rewrite List.filter_app. simpl.
      rewrite (eqb_neq name name') by done. by rewrite app_nil_r.
Qed.


Lemma convertFromDbValue_idempotent v :
  convertFromDbValue (convertFromDbValue v) = convertFromDbValue v.
Proof.
  destruct v as [b|n|s|t|]; try done.
  - cbn [convertFromDbValue].
    rewrite isIntegerText_ofZ, toNumber_ofZ. cbn [convertFromDbValue].
    by rewrite isIntegerText_ofZ, toNumber_ofZ.
  - cbn [convertFromDbValue].
    destruct (eqb s (lit "1") || eqb s (lit "0")) eqn:E1; [done|].
    destruct (isIntegerText s) eqn:E2.
    + cbn [convertFromDbValue]. by rewrite isIntegerText_ofZ, toNumber_ofZ.
    + cbn [convertFromDbValue]. by rewrite E1, E2.
Qed.

Lemma loadConfig_fold_other (rows : list Config.t) (c : gmap jsstring value) k :
  k ∉ map Config.name rows ->
  fold_left
    (fun c i => <[Config.name i := convertFromDbValue (VString (Config.value i))]> c)
    rows c !! k = c !! k.
Proof.
  revert c. induction rows as [|x rows IH]; intros c Hk; simpl; [done|].
  simpl in Hk. apply not_elem_of_cons in Hk as [Hx Hk].
  rewrite IH by done. by rewrite lookup_insert_ne.
Qed.

Lemma loadConfig_fold_row (rows : list Config.t) (c : gmap jsstring value) i :
  NoDup (map Config.name rows) -> i ∈ rows ->
  fold_left
    (fun c i => <[Config.name i := convertFromDbValue (VString (Config.value i))]> c)
    rows c !! Config.name i
  = Some (convertFromDbValue (VString (Config.value i))).
Proof.
  revert c. induction rows as [|x rows IH]; intros c Hnd Hi; simpl.
  - by apply elem_of_nil in Hi.
  - simpl in Hnd. apply NoDup_cons in Hnd as [Hx Hnd].
    apply elem_of_cons in Hi as [->|Hi].
    + rewrite loadConfig_fold_other by done. by rewrite lookup_insert_eq.
    + by apply IH.
Qed.

(** X6.  A value survives a restart: when the names of the table are
    distinct, a repository built anew on the table that [setConfig]
    left, and loaded with [loadConfig], reads the key as the running
    repository did right after the [setConfig]. *)
Theorem config_survives_restart r name v :
  NoDup (map Config.name (configs r)) ->
  getConfig (loadConfig (fresh (configs (setConfig r name v)))) name
  = getConfig (setConfig r name v) name.
Proof.
  intros Hnd. rewrite getConfig_setConfig.
  destruct (setConfig_table_facts r name v name) as (Hfind & _ & Hnames & _).
  cbv zeta in Hfind, Hnames.
  apply findOne_name in Hfind as [_ Hin].
  unfold getConfig, loadConfig, fresh. cbn [config configs].
  assert (Hnd' : NoDup (map Config.name (configs (setConfig r name v)))).
  { rewrite Hnames. case_bool_decide as Hn; [by rewrite app_nil_r|].
    apply NoDup_app. repeat split; [done| |apply NoDup_singleton].
    intros x Hx Hx'. apply list_elem_of_singleton in Hx'. by subst. }
  pose proof (loadConfig_fold_row _ ∅ _ Hnd' Hin) as Hrow.
  cbn [Config.name Config.value] in Hrow. rewrite Hrow.
  apply convertFromDbValue_idempotent.
Qed.

Lemma config_survives_restart_witness :
  getConfig (loadConfig (fresh (configs (setConfig repo0 (lit "socket_port")
                                           (VNumber 4321)))))
            (lit "socket_port")
  = VNumber 4321.
Proof.
  rewrite (config_survives_restart repo0 (lit "socket_port") (VNumber 4321)).
  - reflexivity.
  - apply (bool_decide_unpack _). vm_compute. exact I.
Defined.

Lemma setupDefaults_lookup defaults r name :
  config (setupDefaults defaults r) !! name
  = match config r !! name with
    | Some x => Some x
    | None =>
        match List.find (fun kv => eqb (fst kv) name) defaults with
        | Some kv => Some (VString (convertToDbValue (snd kv)))
        | None => None
        end
    end.
Proof.
  unfold setupDefaults. revert r.
  induction defaults as [|[k v] defaults IH]; intros r; simpl.
  - by destruct (config r !! name).
  - rewrite IH. unfold hasConfig.
    destruct (decide (k = name)) as [->|Hne].
    + rewrite eqb_refl. destruct (config r !! name) as [x|] eqn:E.
      * rewrite bool_decide_eq_true_2 by by eexists. by rewrite E.
      * rewrite bool_decide_eq_false_2 by (by intros [? ?]).
        unfold setConfig. cbn [config fst snd]. by rewrite lookup_insert_eq.
    + rewrite (eqb_neq _ _ Hne). case_bool_decide; [done|].
      unfold setConfig. cbn [config fst snd]. by rewrite lookup_insert_ne.
Qed.

(** X7.  [setupDefaults] fills in what is missing and nothing else:
    afterwards every default key is present, a key that was present
    keeps the cached value it had, a key that is no default key is as
    it was, and a missing default key holds the stored text of the
    first default listed for it. *)
Theorem setupDefaults_fills_missing defaults r name :
  (name ∈ map fst defaults ->
   hasConfig (setupDefaults defaults r) name = true)
  /\ (hasConfig r name = true ->
      config (setupDefaults defaults r) !! name = config r !! name)
  /\ (name ∉ map fst defaults ->
      config (setupDefaults defaults r) !! name = config r !! name)
  /\ (forall v,
        hasConfig r name = false ->
        List.find (fun kv => eqb (fst kv) name) defaults = Some (name, v) ->
        getConfig (setupDefaults defaults r) name
        = convertFromDbValue (VString (convertToDbValue v))).
Proof.
  repeat split.
  - intros Hin. unfold hasConfig. rewrite setupDefaults_lookup.
    apply bool_decide_eq_true.
    destruct (config r !! name); [by eexists|].
    destruct (List.find _ defaults) as [kv|] eqn:E; [by eexists|].
    apply list_elem_of_fmap in Hin as ([k v] & -> & Hin).
    apply list_elem_of_In in Hin.
    pose proof (find_none _ _ E _ Hin) as Hf. simpl in Hf.
    by rewrite eqb_refl in Hf.
  - intros H. apply bool_decide_eq_true in H as [x H].
    by rewrite setupDefaults_lookup, H.
  - intros Hnot. rewrite setupDefaults_lookup.
    destruct (config r !! name); [done|].
    destruct (List.find _ defaults) as [[k v]|] eqn:E; [|done].
    apply find_some in E as [Hin Hk]. simpl in Hk. apply eqb_eq in Hk. subst k.
    exfalso. apply Hnot. apply list_elem_of_fmap. exists (name, v).
    split; [done | by apply list_elem_of_In].
  - intros v H Hfind. unfold getConfig.
    rewrite setupDefaults_lookup, Hfind.
    apply bool_decide_eq_false in H.
    destruct (config r !! name) eqn:E; [|done].
    exfalso. apply H. by eexists.
Qed.

Lemma setupDefaults_fills_missing_witness :
  hasConfig (startup defaults0 repo0) (lit "tutorial_is_done") = true
  /\ config (startup defaults0 repo0) !! lit "socket_port"
     = Some (VNumber 1234)
  /\ getConfig (startup defaults0 repo0) (lit "tutorial_is_done") = VBool false.
Proof.
  destruct (setupDefaults_fills_missing defaults0 (loadConfig repo0)
              (lit "tutorial_is_done")) as (H1 & _ & _ & H4).
  destruct (setupDefaults_fills_missing defaults0 (loadConfig repo0)
              (lit "socket_port")) as (_ & H2 & _).
  split; [|split].
  - apply H1. apply (bool_decide_unpack _). vm_compute. exact I.
  - unfold startup. rewrite H2; reflexivity.
  - unfold startup. rewrite (H4 (VBool false)); reflexivity.
Defined.

End ConfigFacts.

(** ** Splitting *)

Section SplitFacts.

Lemma startsWith_nil (s : jsstring) : startsWith s [] = true.
Proof. unfold startsWith. by apply bool_decide_eq_true. Qed.

Lemma startsWith_app (p s : jsstring) : startsWith (p ++ s) p = true.
Proof.
  unfold startsWith. apply bool_decide_eq_true. by rewrite take_app_length.
Qed.

(** A text without the separator is a single piece. *)
Lemma split_go_absent (sep cur s : jsstring) :
  includes s sep = false -> split_go sep 0 cur s = [rev cur ++ s].
Proof.
  revert cur. induction s as [|c s IH]; intros cur H; simpl.
  - by rewrite app_nil_r.
  - simpl in H. apply orb_false_elim in H as [H1 H2].
    rewrite H1, IH by done. simpl. by rewrite <- app_assoc.
Qed.

Lemma split_absent (s sep : jsstring) :
  includes s sep = false -> split s sep = [s].
Proof. intros H. unfold split. by rewrite split_go_absent. Qed.

(** Code units still to be passed over are dropped. *)
Lemma split_go_skip (sep cur pre s : jsstring) :
  split_go sep (length pre) cur (pre ++ s) = split_go sep 0 cur s.
Proof. induction pre as [|c pre IH]; simpl; [done | apply IH]. Qed.

(** A text that begins with the separator: an empty first piece, then
    the pieces of the rest. *)
Lemma split_prefixed (sep s : jsstring) :
  sep <> [] -> split (sep ++ s) sep = [] :: split s sep.
Proof.
  intros Hsep. unfold split. destruct sep as [|c sep]; [done|].
  cbn [app split_go].
  change (c :: sep ++ s) with ((c :: sep) ++ s). rewrite startsWith_app.
  simpl. rewrite Nat.sub_0_r. f_equal. apply split_go_skip.
Qed.

End SplitFacts.

(** ** More on the scanner *)

Section ScannerMore.
Import QueueService Tick Sample.

Lemma settled_iff db now e :
  settled db now e = true
  <-> now - Queue.dateCreated e > 60000 \/ entryMatches db now e <> [].
Proof.
  unfold settled. rewrite orb_true_iff, negb_true_iff.
  rewrite bool_decide_eq_true, bool_decide_eq_false. done.
Qed.

(** X8.  What is left of the outbox after a tick: an entry is there
    exactly if it was there before and no entry of the outbox with its
    id was older than 60 seconds or had a candidate record.  A tick
    never adds an entry. *)
Theorem outbox_survivors db now after w x :
  x ∈ repo (getEntries db now after w)
  <-> x ∈ repo w
      /\ forall e, e ∈ repo w ->
           now - Queue.dateCreated e > 60000 \/ entryMatches db now e <> [] ->
           Queue.id x <> Queue.id e.
Proof.
  unfold getEntries. rewrite tick_repo. split; intros [H1 H2]; (split; [done|]).
  - intros e He Hs. apply H2; [done | by apply settled_iff].
  - intros e He Hs. apply H2; [done | by apply settled_iff].
Qed.

Lemma outbox_survivors_witness :
  helloEntry ∈ repo (world [helloEntry; clipEntry])
  /\ Queue.id helloEntry <> Queue.id clipEntry.
Proof.
  destruct (proj1 (outbox_survivors [echoRecord] 5000 0
                     (world [helloEntry; clipEntry]) helloEntry)) as [H1 H2].
  - apply (bool_decide_unpack _). vm_compute. exact I.
  - split; [exact H1 | discriminate].
Defined.

Lemma entryQueries_concat now es :
  concat (map (entryQueries now) es)
  = map (buildParams now)
        (List.filter
           (fun e => negb (bool_decide (now - Queue.dateCreated e > 60000))) es).
Proof.
  induction es as [|e es IH]; simpl; [done|]. rewrite IH.
  unfold entryQueries, Spec.expired.
  case_decide; [by rewrite bool_decide_eq_true_2 | by rewrite bool_decide_eq_false_2].
Qed.

(** X9.  The queries of a tick: one for each entry of the outbox that
    is not older than 60 seconds, in the order of the outbox, and no
    other; each asks for at most three records of the entry's chat,
    oldest first, dated from the entry's creation up to the tick. *)
Theorem tick_queries_sent db now after w :
  newQueries w (getEntries db now after w)
  = map (buildParams now)
        (List.filter
           (fun e => negb (bool_decide (now - Queue.dateCreated e > 60000)))
           (repo w))
  /\ (forall q, q ∈ newQueries w (getEntries db now after w) ->
        p_limit q = 3%nat /\ p_sort q = ASC /\ p_before q = now
        /\ exists e, e ∈ repo w /\ p_chatGuid q = Queue.chatGuid e
                     /\ p_after q = Queue.dateCreated e
                     /\ head (p_where q) = Some (WIsFromMe 1)).
Proof.
  assert (E : newQueries w (getEntries db now after w)
              = map (buildParams now)
                  (List.filter
                     (fun e => negb (bool_decide (now - Queue.dateCreated e > 60000)))
                     (repo w))).
  { unfold newQueries, getEntries. rewrite tick_queries, drop_app_length.
    apply entryQueries_concat. }
  split; [exact E|]. intros q Hq. rewrite E in Hq.
  apply list_elem_of_fmap in Hq as (e & -> & He).
  apply list_elem_of_In, filter_In in He as [He _].
  repeat split. exists e. repeat split; [by apply list_elem_of_In|].
  unfold buildParams, buildWhere. simpl. by destruct (startsWith _ _).
Qed.

Lemma tick_queries_sent_witness :
  newQueries (world [oldEntry; helloEntry])
    (getEntries [hello1] 70000 0 (world [oldEntry; helloEntry]))
  = [].
Proof.
  destruct (tick_queries_sent [hello1] 70000 0 (world [oldEntry; helloEntry]))
    as [H _].
  rewrite H. reflexivity.
Defined.

(** X10.  Every matched event of a tick is backed by an entry and a
    record: it carries the temp identifier of an entry of the outbox
    that is not older than 60 seconds, and a record of the store that
    is self-originated, joined to that entry's chat, and dated from
    the entry's creation up to the tick. *)
Theorem match_events_are_backed db now after w tempGuid m :
  MessageMatch tempGuid m ∈ newEvents w (getEntries db now after w) ->
  exists e, e ∈ repo w
            /\ Queue.tempGuid e = tempGuid
            /\ now - Queue.dateCreated e <= 60000
            /\ m ∈ db
            /\ Message.isFromMe m = true
            /\ Queue.chatGuid e ∈ Message.chats m
            /\ Queue.dateCreated e <= Message.date m < now.
Proof.
  unfold newEvents, getEntries. rewrite tick_emitted, drop_app_length.
  intros H. apply elem_of_concat in H as (evs & Hev & Hevs).
  apply list_elem_of_fmap in Hevs as (e & -> & He).
  unfold entryEvents in Hev. case_decide as Hx.
  - apply list_elem_of_singleton in Hev. discriminate.
  - apply list_elem_of_fmap in Hev as (m' & Heq & Hm).
    injection Heq as -> ->.
    unfold entryMatches in Hm. apply getMessages_elem in Hm as [Hdb Hsel].
    rewrite selected_buildParams in Hsel.
    apply sameLogicalSend_iff in Hsel as (H1 & H2 & H3 & _).
    exists e. unfold Spec.expired in Hx. repeat split; try done; lia.
Qed.

Lemma match_events_are_backed_witness :
  exists e, e ∈ [helloEntry; clipEntry]
            /\ Queue.tempGuid e = lit "temp-1"
            /\ Message.isFromMe hello1 = true.
Proof.
  destruct (match_events_are_backed [hello1; echoRecord] 5000 0
              (world [helloEntry; clipEntry]) (lit "temp-1") hello1)
    as (e & H1 & H2 & _ & _ & H5 & _).
  - assert (E : newEvents (world [helloEntry; clipEntry])
                  (getEntries [hello1; echoRecord] 5000 0
                     (world [helloEntry; clipEntry]))
                = [MessageMatch (lit "temp-1") hello1])
      by (vm_compute; reflexivity).
    rewrite E. left.
  - exists e. split; [exact H1 | split; [exact H2 | exact H5]].
Defined.

(** X11.  An entry whose text starts with its temp identifier is read
    as an attachment entry, and every entry is when the temp
    identifier is empty: a record handed out for it has a text of
    length one, whatever the text of the entry, so that nothing is
    handed out when no record of the store has such a text, even if
    records carry the very text of the entry. *)
Theorem attachment_entry_edge db now e :
  (Queue.tempGuid e = [] -> startsWith (Queue.text e) (Queue.tempGuid e) = true)
  /\ (startsWith (Queue.text e) (Queue.tempGuid e) = true ->
      forall r, r ∈ entryMatches db now e ->
        exists t, Message.text r = Some t /\ length t = 1%nat)
  /\ (startsWith (Queue.text e) (Queue.tempGuid e) = true ->
      (forall r t, r ∈ db -> Message.text r = Some t -> length t <> 1%nat) ->
      entryMatches db now e = []).
Proof.
  assert (Hone : startsWith (Queue.text e) (Queue.tempGuid e) = true ->
                 forall r, r ∈ entryMatches db now e ->
                   r ∈ db /\ exists t, Message.text r = Some t /\ length t = 1%nat).
  { intros Ha r Hr. unfold entryMatches in Hr.
    apply getMessages_elem in Hr as [Hdb Hsel]. split; [done|].
    rewrite selected_buildParams in Hsel.
    apply sameLogicalSend_iff in Hsel as (_ & _ & _ & H).
    unfold Spec.recordsAttachment in H. rewrite Ha in H. destruct H as [H _].
    unfold Spec.hasLengthOne in H. destruct (Message.text r) as [t|]; [|done].
    exists t. split; [done | by apply bool_decide_eq_true in H]. }
  repeat split.
  - intros ->. apply startsWith_nil.
  - intros Ha r Hr. by destruct (Hone Ha r Hr).
  - intros Ha Hdb. destruct (entryMatches db now e) as [|r l] eqn:E; [done|].
    destruct (Hone Ha r) as (Hr & t & Ht & Hlen); [left|].
    by destruct (Hdb r t Hr Ht).
Qed.

Lemma attachment_entry_edge_witness :
  entryMatches [hello1; hello2] 5000
    (Queue.mk 7 [] chatC 1000 (lit "Hello")) = [].
Proof.
  destruct (attachment_entry_edge [hello1; hello2] 5000
              (Queue.mk 7 [] chatC 1000 (lit "Hello"))) as (_ & _ & H).
  apply H; [reflexivity|].
  intros r t Hr Ht Hlen.
  apply elem_of_cons in Hr as [->|Hr].
  - injection Ht as <-. discriminate Hlen.
  - apply list_elem_of_singleton in Hr. subst r.
    injection Ht as <-. discriminate Hlen.
Defined.

End ScannerMore.

(** ** More on the orchestrator *)

Section OrchestratorMore.
Import MessageInterface MessageInterface2 Sample Sample2.

Ltac run_M :=
  unfold mbind, M_bind, bind, log, getTime, messageManager_add, perform,
    getTypingCache, setTypingCache, chat_stopTyping, when, fs_unlink,
    tryCatch, throw, mret, M_ret, ret;
  cbn [logs messageManager typingCache stopTyping unlinked clock].

Ltac split_cases := repeat (case_match; simplify_eq/=; try done).

(** X12.  The chat guid is checked before anything else is done: a
    text send or an attachment send with an empty chat guid throws "No
    chat GUID provided" and leaves the server state as it was (nothing
    logged, no expectation registered), and so does a multipart send
    once the privileged channel is available; a multipart send without
    parts throws "No parts provided", again with the state untouched. *)
Theorem chat_guid_checked_first env env2 s :
  (forall p, sm_chatGuid p = [] ->
     sendMessageSync env p s = (Throw (lit "No chat GUID provided"), s))
  /\ (forall p, sa_chatGuid p = [] ->
        sendAttachmentSync env p s = (Throw (lit "No chat GUID provided"), s))
  /\ (forall p, checkPrivateApiStatus env = Ok tt -> smt_chatGuid p = [] ->
        sendMultipart env env2 p s = (Throw (lit "No chat GUID provided"), s))
  /\ (forall p, checkPrivateApiStatus env = Ok tt ->
        truthy (smt_chatGuid p) = true -> smt_parts p = [] ->
        sendMultipart env env2 p s = (Throw (lit "No parts provided"), s)).
Proof.
  repeat split.
  - intros p H. unfold sendMessageSync. by rewrite H.
  - intros p H. unfold sendAttachmentSync. by rewrite H.
  - intros p Hc H. unfold sendMultipart. run_M. by rewrite Hc, H.
  - intros p Hc H Hp. unfold sendMultipart. run_M. by rewrite Hc, H, Hp.
Qed.

Lemma chat_guid_checked_first_witness :
  sendMultipart (env editStore rejected) env2
    (mkSendMultipart chatC None None None None 0 []) server0
  = (Throw (lit "No parts provided"), server0).
Proof.
  destruct (chat_guid_checked_first (env editStore rejected) env2 server0)
    as (_ & _ & _ & H).
  apply H; reflexivity.
Defined.

(** X13.  A text send with a chat guid registers exactly one
    expectation, whatever the method and whatever becomes of the send
    (returned, rejected, timed out, invalid method): the message
    manager ends with the expectation for the chat and text added,
    stamped ten seconds before the clock, and the chat is out of the
    typing cache. *)
Theorem sendMessageSync_registers_once env p s :
  truthy (sm_chatGuid p) = true ->
  let s' := snd (sendMessageSync env p s) in
  messageManager s'
  = messageManager s
    ++ [{| mp_chatGuid := sm_chatGuid p;
           mp_text := sm_message p;
           mp_isAttachment := false;
           mp_sentAt := clock s - 10000;
           mp_subject := sm_subject p;
           mp_tempGuid := sm_tempGuid p |}]
  /\ typingCache s'
     = List.filter (fun c => negb (eqb c (sm_chatGuid p))) (typingCache s)
  /\ unlinked s' = unlinked s.
Proof.
  intros Hchat s'. subst s'.
  unfold sendMessageSync. rewrite Hchat. cbn [negb].
  unfold sendMessagePrivateApi. run_M.
  case_bool_decide as Hin;
    cbn [logs messageManager typingCache stopTyping unlinked clock].
  - repeat split; split_cases.
  - rewrite (filter_absent _ _ Hin). repeat split; split_cases.
Qed.

Lemma sendMessageSync_registers_once_witness :
  messageManager (snd (sendMessageSync (env editStore rejected)
                         (textParams "apple-script") server0))
  = [mkPromise chatC (Some (lit "Hello")) false 990000 None
               (Some (lit "temp-1"))].
Proof.
  destruct (sendMessageSync_registers_once (env editStore rejected)
              (textParams "apple-script") server0) as [H _].
  - reflexivity.
  - exact H.
Defined.

(** X14.  Edit, unsend, notify and the privileged text send work on
    the store and the channel only: whatever their outcome, the server
    state (log, message manager, typing cache) is the one they started
    from, so none of them registers an expectation. *)
Theorem confirmation_only_operations env s :
  (forall p, snd (editMessage env p s) = s)
  /\ (forall p, snd (unsendMessage env p s) = s)
  /\ (forall chat message, snd (notifySilencedMessage env chat message s) = s)
  /\ (forall p, snd (sendMessagePrivateApi env p s) = s).
Proof.
  repeat split; intros.
  - unfold editMessage. run_M. split_cases.
  - unfold unsendMessage. run_M. split_cases.
  - unfold notifySilencedMessage. run_M. split_cases.
  - unfold sendMessagePrivateApi. run_M. split_cases.
Qed.

(** X15.  The copy an attachment send makes of the file is deleted
    only at the end of a send that returned, made by apple-script on a
    platform below Monterey; a send that throws, a send over the
    privileged channel, and any send on Monterey or newer leave the
    copy in place. *)
Theorem attachment_copy_cleanup env p s :
  truthy (sa_chatGuid p) = true ->
  let newPath :=
    FileSystem_copyAttachment env (sa_attachmentPath p) (sa_attachmentName p)
                              (sa_method p) in
  let out := sendAttachmentSync env p s in
  unlinked (snd out)
  = unlinked s
    ++ match fst out with
       | Ok _ =>
           if negb (isMinMonterey env) && eqb (sa_method p) (lit "apple-script")
           then [newPath] else []
       | Throw _ => []
       end.
Proof.
  intros Hchat newPath out. subst newPath out.
  unfold sendAttachmentSync. rewrite Hchat. cbn [negb].
  unfold sendAttachmentPrivateApi, confirmSent. run_M.
  destruct (eqb (sa_method p) (lit "apple-script")) eqn:Em;
    destruct (isMinMonterey env);
    split_cases; by rewrite ?app_nil_r.
Qed.

Lemma attachment_copy_cleanup_witness :
  unlinked (snd (sendAttachmentSync (env editStore rejected)
                   (clipParams "apple-script") server0))
  = [].
Proof.
  rewrite (attachment_copy_cleanup (env editStore rejected)
             (clipParams "apple-script") server0); reflexivity.
Defined.

(** X16.  A reaction whose precondition fails leaves no trace, but one
    whose dispatch returns no identifier throws "Failed to send
    reaction! No message GUID returned." after its expectation was
    registered: the expectation stays in the message manager, and
    nothing is logged. *)
Theorem reaction_without_identifier env p s :
  (forall e, checkPrivateApiStatus env = Throw e ->
     sendReaction env p s = (Throw e, s))
  /\ (checkPrivateApiStatus env = Ok tt ->
      forall r,
        privateApi_message_react env (sr_chatGuid p)
          (Message.guid (sr_message p)) (sr_reaction p) (sr_partIndex p) = Ok r ->
        truthyOpt (identifierOf r) = false ->
        exists s',
          sendReaction env p s
          = (Throw (lit "Failed to send reaction! No message GUID returned."), s')
          /\ logs s' = logs s
          /\ length (messageManager s') = S (length (messageManager s))).
Proof.
  split.
  - intros e He. unfold sendReaction. run_M. by rewrite He.
  - intros Hc r Hr Hid. unfold sendReaction. run_M.
    rewrite Hc, Hr, Hid. cbn [negb]. eexists. split; [reflexivity|].
    cbn [logs messageManager]. split; [done|].
    rewrite length_app. simpl. lia.
Qed.

Lemma reaction_without_identifier_witness :
  sendReaction
    (mkEnv (Throw (lit "Private API is not enabled!")) true true
       (fun _ _ _ _ => Ok tt) rejected (fun _ => Ok None) (fun _ => Ok None)
       (fun _ => Ok tt) (fun _ => Ok tt) (fun _ _ _ _ => Ok None)
       (fun _ _ => Ok tt) editStore (fun p _ _ => p) (Ok tt)
       (fun _ _ => Ok tt) Message.text positiveTexts negativeTexts placeholder 250)
    (reactionParams picture "love") server0
  = (Throw (lit "Private API is not enabled!"), server0).
Proof.
  eapply reaction_without_identifier. reflexivity.
Defined.

End OrchestratorMore.

(** ** Multipart sends and embedded media *)

Section MultipartFacts.
Import MessageInterface MessageInterface2 Sample Sample2.

Lemma withUnlinked_nil s : withUnlinked s [] = s.
Proof. destruct s. unfold withUnlinked. simpl. by rewrite app_nil_r. Qed.

Lemma withUnlinked_app s a b :
  withUnlinked (withUnlinked s a) b = withUnlinked s (a ++ b).
Proof. unfold withUnlinked. simpl. by rewrite app_assoc. Qed.

Lemma copyParts_gated env env2 parts s :
  copyParts env env2 false parts s = (Ok parts, s).
Proof.
  revert s. induction parts as [|part parts IH]; intros s; [done|].
  cbn [copyParts copyPart]. unfold mbind, M_bind, bind, mret, M_ret, ret.
  by rewrite IH.
Qed.

Lemma copyParts_all env env2 parts s :
  Forall (fun part => is_Some (Part.attachment part)) parts ->
  (forall path, fs_unlinkSync_outcome env2 path = Ok tt) ->
  copyParts env env2 true parts s
  = (Ok (map (fun part =>
                Part.mk (Part.attachment part) (Part.name part)
                  (Some (newPathOf env env2 part
                           (nullish (Part.attachment part) []))))
             parts),
     withUnlinked s
       (map (fun part =>
               currentPathOf env2 (nullish (Part.attachment part) []))
            parts)).
Proof.
  intros Hall Hunlink. revert s.
  induction Hall as [|part parts [a Ha] Hall IH]; intros s.
  - simpl. by rewrite withUnlinked_nil.
  - cbn [copyParts copyPart]. rewrite Ha.
    unfold mbind, M_bind, bind, mret, M_ret, ret, fs_unlinkSync.
    rewrite Hunlink, IH. simpl. unfold withUnlinked. simpl.
    by rewrite Ha, <- app_assoc.
Qed.

(** X17.  The copy loop of a multipart send looks at the first part
    only to decide: if the first part has no attachment, no part is
    copied or deleted and the parts go out as they came, whatever
    attachments the later parts name; if it has one and so has every
    part, each part gets the path of its copy and each original is
    deleted, in the order of the parts. *)
Theorem multipart_copy_gate env env2 parts s :
  (firstHasAttachment parts = false ->
   copyParts env env2 (firstHasAttachment parts) parts s = (Ok parts, s))
  /\ (firstHasAttachment parts = true ->
      Forall (fun part => is_Some (Part.attachment part)) parts ->
      (forall path, fs_unlinkSync_outcome env2 path = Ok tt) ->
      copyParts env env2 (firstHasAttachment parts) parts s
      = (Ok (map (fun part =>
                    Part.mk (Part.attachment part) (Part.name part)
                      (Some (newPathOf env env2 part
                               (nullish (Part.attachment part) []))))
                 parts),
         withUnlinked s
           (map (fun part =>
                   currentPathOf env2 (nullish (Part.attachment part) []))
                parts))).
Proof.
  split.
  - intros ->. apply copyParts_gated.
  - intros -> Hall Hunlink. by apply copyParts_all.
Qed.

Lemma multipart_copy_gate_witness :
  copyParts (env editStore rejected) env2
    (firstHasAttachment [textPart; filePart "a.png"])
    [textPart; filePart "a.png"] server0
  = (Ok [textPart; filePart "a.png"], server0)
  /\ unlinked (snd (copyParts (env editStore rejected) env2
                      (firstHasAttachment [filePart "a.png"; filePart "b.png"])
                      [filePart "a.png"; filePart "b.png"] server0))
     = [lit "/Attachments/a.png"; lit "/Attachments/b.png"].
Proof.
  split.
  - apply (multipart_copy_gate (env editStore rejected) env2
             [textPart; filePart "a.png"] server0). reflexivity.
  - destruct (multipart_copy_gate (env editStore rejected) env2
                [filePart "a.png"; filePart "b.png"] server0) as [_ H].
    rewrite H; [reflexivity | reflexivity | | done].
    repeat constructor; by eexists.
Defined.

(** X18.  When the first part of a multipart send has an attachment
    and a later part has none, the copy loop throws at that part, and
    the originals of the parts before it are already deleted. *)
Theorem multipart_copy_partial env env2 before part after s :
  Forall (fun part => is_Some (Part.attachment part)) before ->
  before <> [] ->
  Part.attachment part = None ->
  (forall path, fs_unlinkSync_outcome env2 path = Ok tt) ->
  let parts := before ++ part :: after in
  firstHasAttachment parts
  = truthyOpt (head before ≫= Part.attachment)
  /\ copyParts env env2 true parts s
     = (Throw pathTypeError,
        withUnlinked s
          (map (fun part =>
                  currentPathOf env2 (nullish (Part.attachment part) []))
               before)).
Proof.
  intros Hall Hne Hnone Hunlink parts. subst parts. split.
  - destruct before; done.
  - clear Hne. revert s. induction Hall as [|x before [a Ha] Hall IH]; intros s.
    + cbn [app copyParts copyPart]. rewrite Hnone.
      unfold mbind, M_bind, bind, throw. simpl. by rewrite withUnlinked_nil.
    + cbn [app copyParts copyPart]. rewrite Ha.
      unfold mbind, M_bind, bind, mret, M_ret, ret, fs_unlinkSync.
      rewrite Hunlink. cbn [app].
      specialize (IH (withUnlinked s [currentPathOf env2 a])).
      unfold withUnlinked in IH at 1. simpl in IH. rewrite IH.
      rewrite withUnlinked_app. simpl. by rewrite Ha.
Qed.

Lemma multipart_copy_partial_witness :
  fst (copyParts (env editStore rejected) env2 true
         [filePart "a.png"; textPart; filePart "b.png"] server0)
  = Throw pathTypeError
  /\ unlinked (snd (copyParts (env editStore rejected) env2 true
                      [filePart "a.png"; textPart; filePart "b.png"] server0))
     = [lit "/Attachments/a.png"].
Proof.
  destruct (multipart_copy_partial (env editStore rejected) env2
              [filePart "a.png"] textPart [filePart "b.png"] server0)
    as [_ H]; [repeat constructor; by eexists | done | done | done |].
  split.
  - exact (f_equal fst H).
  - exact (f_equal (fun x => unlinked (snd x)) H).
Defined.

Lemma replace_prefix (pat s rep : jsstring) :
  replace (pat ++ s) pat rep = rep ++ s.
Proof.
  assert (H : forall t, startsWith t pat = true ->
                replace t pat rep = rep ++ drop (length pat) t).
  { intros t Ht. destruct t; simpl; by rewrite Ht. }
  rewrite H by apply startsWith_app. by rewrite drop_app_length.
Qed.

(** X19.  Embedded media: a message that is neither a digital touch
    nor handwritten is refused; for one that is, a path that begins
    with "file://" comes back without that prefix, and a missing or
    empty path comes back as [null], not as an error.  The state is
    untouched. *)
Theorem embedded_media_path env env2 chat message isDigitalTouch isHandwritten s :
  checkPrivateApiStatus env = Ok tt ->
  (isDigitalTouch = false -> isHandwritten = false ->
   getEmbeddedMedia env env2 chat message isDigitalTouch isHandwritten s
   = (Throw (lit "Message must be a digital touch message or handwritten message!"),
      s))
  /\ (isDigitalTouch || isHandwritten = true ->
      forall p,
        privateApi_message_getEmbeddedMedia env2 (Chat.guid chat)
          (Message.guid message) = Ok (Some (lit "file://" ++ p)) ->
        getEmbeddedMedia env env2 chat message isDigitalTouch isHandwritten s
        = (Ok (Some p), s))
  /\ (isDigitalTouch || isHandwritten = true ->
      forall path,
        privateApi_message_getEmbeddedMedia env2 (Chat.guid chat)
          (Message.guid message) = Ok path ->
        truthyOpt path = false ->
        getEmbeddedMedia env env2 chat message isDigitalTouch isHandwritten s
        = (Ok None, s)).
Proof.
  intros Hc. unfold getEmbeddedMedia, mbind, M_bind, bind, perform, throw,
    mret, M_ret, ret. rewrite Hc. repeat split.
  - intros -> ->. done.
  - intros Hflag p Hp. rewrite Hp.
    replace (negb isDigitalTouch && negb isHandwritten) with false
      by (destruct isDigitalTouch, isHandwritten; done).
    assert (Ht : truthyOpt (Some (lit "file://" ++ p)) = true) by reflexivity.
    rewrite Ht. cbn [negb nullish]. by rewrite replace_prefix.
  - intros Hflag path Hp Ht. rewrite Hp.
    replace (negb isDigitalTouch && negb isHandwritten) with false
      by (destruct isDigitalTouch, isHandwritten; done).
    by rewrite Ht.
Qed.

Lemma embedded_media_path_witness :
  getEmbeddedMedia (env editStore rejected) env2 (Chat.mk chatC) hello1
    true false server0
  = (Ok (Some (lit "/tmp/touch.mov")), server0).
Proof.
  destruct (embedded_media_path (env editStore rejected) env2 (Chat.mk chatC)
              hello1 true false server0) as (_ & H & _); [reflexivity|].
  apply H; reflexivity.
Defined.

End MultipartFacts.

(** ** The authentication middleware *)

Section AuthFacts.
Import AuthMiddleware.
Context {Token : Type}.
Variable getToken : option jsstring -> option Token.

Lemma truthy_length (s : jsstring) :
  negb (truthy s) || bool_decide (length s = 0%nat) = negb (truthy s).
Proof. by destruct s. Qed.

(** X20.  The middleware ends in exactly one of two ways.  Either the
    request is authorised: the token starts with "Bearer ", the token
    store knows the value after it, the context carries that store
    row, nothing is written to the response and the request is not
    ended.  Or the request is refused: one 401 response is written,
    the request is marked as ended and the authorisation of the
    context is left as it was. *)
Theorem middleware_outcome res (context : UpgradedHttp Token) :
  let out := middleware Token getToken res context in
  (exists dbToken,
     auth Token (fst out) = Some dbToken
     /\ snd out = res
     /\ hasEnded Token (fst out) = hasEnded Token context
     /\ startsWith (tokenOf Token context) (lit "Bearer ") = true
     /\ getToken (split (tokenOf Token context) (lit "Bearer ") !! 1%nat)
        = Some dbToken)
  \/ (exists msg,
        snd out = res ++ [(401, msg)]
        /\ hasEnded Token (fst out) = true
        /\ auth Token (fst out) = auth Token context).
Proof.
  intros out. subst out. unfold middleware. rewrite truthy_length.
  destruct (truthy (tokenOf Token context)) eqn:Ht; cbn [negb andb].
  - destruct (startsWith (tokenOf Token context) (lit "Bearer ")) eqn:Hs;
      cbn [negb].
    + destruct (getToken _) as [t|] eqn:Hg.
      * left. exists t. by repeat split.
      * right. by eexists.
    + right. by eexists.
  - right. by eexists.
Qed.

(** X21.  The value looked up for a token "Bearer v" is the piece of
    [v] before its first "Bearer " (all of [v] when it holds none): the
    request is authorised exactly if the token store knows that
    piece. *)
Theorem bearer_token_value res (context : UpgradedHttp Token) v :
  tokenOf Token context = lit "Bearer " ++ v ->
  middleware Token getToken res context
  = match getToken (head (split v (lit "Bearer "))) with
    | Some dbToken =>
        (mkContext Token (headers_authorization Token context)
                   (params_Authorization Token context)
                   (hasEnded Token context) (Some dbToken), res)
    | None => fail Token (lit "Invalid Token") res context
    end
  /\ (includes v (lit "Bearer ") = false ->
      head (split v (lit "Bearer ")) = Some v).
Proof.
  intros Htok. split.
  - unfold middleware. rewrite Htok, startsWith_app.
    assert (Ht : truthy (lit "Bearer " ++ v) = true) by reflexivity.
    rewrite Ht. cbn [negb orb andb].
    rewrite bool_decide_eq_false_2 by (rewrite length_app; simpl; lia).
    rewrite split_prefixed by done.
    change (([] :: split v (lit "Bearer ")) !! 1%nat)
      with (split v (lit "Bearer ") !! 0%nat).
    by rewrite <- head_lookup.
  - intros Hno. by rewrite split_absent.
Qed.

(** X22.  The header goes before the URL parameter.  An empty
    Authorization header ends the request as a missing header even if
    the parameter holds a token; with a header present the parameter
    has no influence on the outcome; without one the parameter is
    treated as the header would be. *)
Theorem header_before_parameter res (context : UpgradedHttp Token) :
  (headers_authorization Token context = Some [] ->
   middleware Token getToken res context
   = fail Token missingHeader res context)
  /\ (forall h other,
        headers_authorization Token context = Some h ->
        let out := middleware Token getToken res context in
        let out' := middleware Token getToken res
                      (mkContext Token (Some h) other
                                 (hasEnded Token context) (auth Token context)) in
        snd out' = snd out
        /\ auth Token (fst out') = auth Token (fst out)
        /\ hasEnded Token (fst out') = hasEnded Token (fst out))
  /\ (headers_authorization Token context = None ->
      let out := middleware Token getToken res context in
      let out' := middleware Token getToken res
                    (mkContext Token (params_Authorization Token context) None
                               (hasEnded Token context) (auth Token context)) in
      snd out' = snd out
      /\ auth Token (fst out') = auth Token (fst out)
      /\ hasEnded Token (fst out') = hasEnded Token (fst out)).
Proof.
  repeat split.
  - intros H. unfold middleware, tokenOf. by rewrite H.
  - unfold middleware, tokenOf, fail. cbn [headers_authorization]. rewrite H.
    repeat (case_match; simplify_eq/=; try done).
  - unfold middleware, tokenOf, fail. cbn [headers_authorization]. rewrite H.
    repeat (case_match; simplify_eq/=; try done).
  - unfold middleware, tokenOf, fail. cbn [headers_authorization]. rewrite H.
    repeat (case_match; simplify_eq/=; try done).
  - unfold middleware, tokenOf, fail.
    cbn [headers_authorization params_Authorization]. rewrite H.
    destruct (params_Authorization Token context);
      repeat (case_match; simplify_eq/=; try done).
  - unfold middleware, tokenOf, fail.
    cbn [headers_authorization params_Authorization]. rewrite H.
    destruct (params_Authorization Token context);
      repeat (case_match; simplify_eq/=; try done).
  - unfold middleware, tokenOf, fail.
    cbn [headers_authorization params_Authorization]. rewrite H.
    destruct (params_Authorization Token context);
      repeat (case_match; simplify_eq/=; try done).
Qed.

End AuthFacts.

Section AuthWitnesses.
Import AuthMiddleware.

Lemma bearer_token_value_witness :
  let known := fun v : option jsstring =>
                 if bool_decide (v = Some (lit "s3cret")) then Some 7%nat else None in
  auth nat (fst (middleware nat known []
                   (mkContext nat (Some (lit "Bearer s3cret")) None false None)))
  = Some 7%nat
  /\ snd (middleware nat known []
            (mkContext nat (Some (lit "Bearer s3cretBearer x")) None false None))
     = [].
Proof.
  intros known. split.
  - destruct (bearer_token_value known []
                (mkContext nat (Some (lit "Bearer s3cret")) None false None)
                (lit "s3cret")) as [H _]; [reflexivity|].
    rewrite H. reflexivity.
  - destruct (bearer_token_value known []
                (mkContext nat (Some (lit "Bearer s3cretBearer x")) None false None)
                (lit "s3cretBearer x")) as [H _]; [reflexivity|].
    rewrite H. reflexivity.
Defined.

Lemma header_before_parameter_witness :
  middleware nat (fun _ => Some 7%nat) []
    (mkContext nat (Some []) (Some (lit "Bearer s3cret")) false None)
  = fail nat missingHeader []
      (mkContext nat (Some []) (Some (lit "Bearer s3cret")) false None).
Proof.
  apply (header_before_parameter (fun _ => Some 7%nat) []
           (mkContext nat (Some []) (Some (lit "Bearer s3cret")) false None)).
  reflexivity.
Defined.

End AuthWitnesses.

(** ** Find My items *)

Section FindMyFacts.
Import FindMy.
Context {Address Location Metadata Role SafeLocations CrowdSourced : Type}.
Variable emoji : Role -> jsstring.

Abbreviation Item :=
  (FindMyItem Address Location Metadata Role SafeLocations CrowdSourced).

(** X23.  The display name of an item: "AirTag" for the product type
    "b389" whatever model name the item carries; never empty when the
    product type is not empty, since an absent or empty model name
    falls back to the product type; and it is the name the device
    built from the item shows. *)
Theorem findmy_display_name (item : Item) :
  (type (productType _ _ _ _ _ _ item) = lit "b389" ->
   getFindMyItemModelDisplayName _ _ _ _ _ _ item = lit "AirTag")
  /\ (type (productType _ _ _ _ _ _ item) <> [] ->
      d_modelDisplayName _ _ _ _ _ _
        (transformFindMyItemToDevice _ _ _ _ _ _ emoji item) <> [])
  /\ (type (productType _ _ _ _ _ _ item) <> lit "b389" ->
      truthyOpt (modelName (productInformation (productType _ _ _ _ _ _ item)))
      = false ->
      getFindMyItemModelDisplayName _ _ _ _ _ _ item
      = type (productType _ _ _ _ _ _ item)).
Proof.
  unfold transformFindMyItemToDevice, getFindMyItemModelDisplayName.
  cbn [d_modelDisplayName]. repeat split.
  - intros ->. done.
  - intros Hne. destruct (eqb _ (lit "b389")); [done|].
    destruct (modelName _) as [[|c m]|]; simpl; done.
  - intros Hne Hm. by rewrite (eqb_neq _ _ Hne), Hm.
Qed.

End FindMyFacts.

Section FindMyWitness.
Import FindMy.

Lemma findmy_display_name_witness :
  getFindMyItemModelDisplayName unit unit unit unit unit unit
    (mkItem unit unit unit unit unit unit
       (mkProductType (lit "b389") (mkInformation (Some (lit "Keys"))))
       (lit "id-1") 1 tt tt None tt tt (lit "Keys") (lit "SN1") tt)
  = lit "AirTag".
Proof.
  apply (findmy_display_name (fun _ : unit => lit "K")). reflexivity.
Defined.

End FindMyWitness.

Section ConfigWitness.
Import ServerRepository ConfigStartup Sample2.


End ConfigWitness.
